(** * GoDo backend: moderation filter, chat channel, conversations, activities

    A shallow embedding of the parts of the Django project that the
    specification makes claims about:

    - [moderation/utils.py]   the user-generated-content filter;
    - [messaging/consumers.py] and [messaging/views.py]  message persistence,
      the WebSocket consumer and the conversation endpoints;
    - [messaging/models.py], [activities/models.py], [activities/views.py]
      the rows these operate on.

    Python strings are sequences of Unicode code points, so a text is a list
    of code points.  Database tables are lists of rows in primary-key order.
    What the interpreter and third-party packages supply (Unicode tables,
    [str.lower], the profanity package, the [re] engine run on patterns typed
    in by moderators) is gathered in the [Runtime] class. *)

From Stdlib Require Import NArith ZArith Ascii String Bool Lia.
From stdpp Require Import base option list gmap sets strings pretty.

Local Open Scope N_scope.

(** ** Texts *)

Definition text := list N.

(** An ASCII literal as a text. *)
Definition str (s : string) : text := map N_of_ascii (list_ascii_of_string s).

(** ** What the Python runtime provides *)

Class Runtime := {
  (** [\d] on code points above Latin-1: the interpreter's table of Unicode
      decimal digits (the first of them is U+0660). *)
  unicode_decimal : N → bool;
  (** [str.lower()]. *)
  str_lower : text → text;
  (** [re.IGNORECASE] comparison of a literal pattern character with a
      character of the subject. *)
  sre_ieq : N → N → bool;
  (** [re.search(pattern, s, re.IGNORECASE) is not None] for a pattern typed
      in by a moderator; [None] when [re] rejects the pattern ([re.error]). *)
  re_search_i : text → text → option bool;
  (** [re.sub(pattern, repl, s, flags=re.IGNORECASE)] for such a pattern. *)
  re_sub_i : text → text → text → text;
  (** [better_profanity.profanity.contains_profanity] and [.censor]. *)
  contains_profanity : text → bool;
  censor : text → text
}.

Module Re.

(** *** Character classes *)

Definition between (lo hi c : N) : bool := (lo <=? c) && (c <=? hi).

Definition is_char (x : N) (c : N) : bool := c =? x.

(** [\s] on [str] patterns: Unicode white space. *)
Definition is_space (c : N) : bool :=
  between 9 13 c || between 28 32 c || (c =? 133) || (c =? 160)
  || (c =? 5760) || between 8192 8202 c || between 8232 8233 c
  || (c =? 8239) || (c =? 8287) || (c =? 12288).

(** [\d] on [str] patterns: in ASCII and Latin-1 the digits 0 to 9. *)
Definition is_digit `{Runtime} (c : N) : bool :=
  if c <? 256 then between 48 57 c else unicode_decimal c.

Definition is_lower (c : N) : bool := between 97 122 c.
Definition is_upper (c : N) : bool := between 65 90 c.
Definition is_ascii_digit (c : N) : bool := between 48 57 c.

(** [[a-zA-Z]], [[a-zA-Z0-9_]], ... as written in the source. *)
Definition alpha (c : N) : bool := is_lower c || is_upper c.
Definition alnum (c : N) : bool := alpha c || is_ascii_digit c.

(** The ASCII letter a code point is case-equivalent to under
    [re.IGNORECASE]: besides the upper-case ASCII letters these are
    U+0130 and U+0131 (dotted and dotless i), U+017F (long s) and U+212A
    (Kelvin sign). *)
Definition ascii_fold (c : N) : N :=
  if is_upper c then c + 32
  else if (c =? 304) || (c =? 305) then 105
  else if c =? 383 then 115
  else if c =? 8490 then 107
  else c.

(** A class of the source compiled with [re.IGNORECASE].  The source's
    case-insensitive patterns use lower-case literals and ranges closed
    under ASCII case. *)
Definition icase (cls : N → bool) (c : N) : bool := cls c || cls (ascii_fold c).

(** *** Patterns

    Every pattern of [moderation/utils.py] is a concatenation of
    single-character classes, each with a greedy quantifier
    ([x], [x?], [x*], [x+], [x{m}], [x{m,n}], [x{m,}]). *)

Record atom := Atom { cls : N → bool; lo : nat; hi : option nat }.

Definition pattern := list atom.

Definition one (c : N → bool) : atom := Atom c 1 (Some 1%nat).
Definition opt (c : N → bool) : atom := Atom c 0 (Some 1%nat).
Definition star (c : N → bool) : atom := Atom c 0 None.
Definition plus (c : N → bool) : atom := Atom c 1 None.
Definition rep (c : N → bool) (n : nat) : atom := Atom c n (Some n).
Definition rep_range (c : N → bool) (m n : nat) : atom := Atom c m (Some n).
Definition at_least (c : N → bool) (m : nat) : atom := Atom c m None.

(** A literal string, case-sensitive or not. *)
Definition lit (s : text) : pattern := map (λ x, one (is_char x)) s.
Definition ilit (s : text) : pattern := map (λ x, one (icase (is_char x))) s.

(** *** Matching

    [run c limit s] is how many leading characters of [s] a greedy
    quantifier over class [c] takes at first: as many as match, up to the
    upper bound. *)
Fixpoint run (c : N → bool) (limit : option nat) (s : text) : nat :=
  match limit with
  | Some O => O
  | _ =>
    match s with
    | x :: s' => if c x then S (run c (pred <$> limit) s') else O
    | [] => O
    end
  end.

(** Backtracking: try the continuation [k] after taking [n], [n-1], ...,
    [low] characters; the first success wins. *)
Fixpoint try_down (k : nat → option nat) (low n : nat) {struct n} : option nat :=
  if (n <? low)%nat then None
  else match k n with
       | Some m => Some (n + m)%nat
       | None => match n with
                 | O => None
                 | S n' => try_down k low n'
                 end
       end.

(** [match_at p s]: the length of the match of [p] at the start of [s], as
    [re]'s backtracking matcher finds it. *)
Fixpoint match_at (p : pattern) (s : text) : option nat :=
  match p with
  | [] => Some O
  | a :: p' => try_down (λ n, match_at p' (drop n s)) (lo a) (run (cls a) (hi a) s)
  end.

(** [re.findall]: the matched substrings, leftmost first, not overlapping.
    [skip] counts the characters of the current match still to pass over. *)
Fixpoint findall_from (p : pattern) (s : text) (skip : nat) : list text :=
  match s with
  | [] => match skip, match_at p [] with
          | O, Some _ => [[]]
          | _, _ => []
          end
  | c :: s' =>
    match skip with
    | S k => findall_from p s' k
    | O => match match_at p s with
           | Some (S n) => take (S n) s :: findall_from p s' n
           | Some O => [] :: findall_from p s' O
           | None => findall_from p s' O
           end
    end
  end.

Definition findall (p : pattern) (s : text) : list text := findall_from p s 0.

(** [re.sub] with a replacement that has no escapes or group references. *)
Fixpoint sub_from (p : pattern) (repl : text) (s : text) (skip : nat) : text :=
  match s with
  | [] => match skip, match_at p [] with
          | O, Some _ => repl
          | _, _ => []
          end
  | c :: s' =>
    match skip with
    | S k => sub_from p repl s' k
    | O => match match_at p s with
           | Some (S n) => repl ++ sub_from p repl s' n
           | Some O => repl ++ c :: sub_from p repl s' O
           | None => c :: sub_from p repl s' O
           end
    end
  end.

Definition sub (p : pattern) (repl : text) (s : text) : text := sub_from p repl s 0.

End Re.

Module Moderation.
Import Re.

Section WithRuntime.
Context `{Runtime}.

(** [[-.\s]] *)
Definition sep (c : N) : bool := (c =? 45) || (c =? 46) || is_space c.

(** [PHONE_PATTERNS] *)
Definition PHONE_PATTERNS : list pattern :=
  [ (* \+?90?\s*\d{3}\s*\d{3}\s*\d{2}\s*\d{2} *)
    [ opt (is_char 43); one (is_char 57); opt (is_char 48); star is_space;
      rep is_digit 3; star is_space; rep is_digit 3; star is_space;
      rep is_digit 2; star is_space; rep is_digit 2 ];
    (* \+?\d{1,3}[-.\s]?\d{3}[-.\s]?\d{3}[-.\s]?\d{4} *)
    [ opt (is_char 43); rep_range is_digit 1 3; opt sep; rep is_digit 3;
      opt sep; rep is_digit 3; opt sep; rep is_digit 4 ];
    (* \d{10,11} *)
    [ rep_range is_digit 10 11 ];
    (* \(\d{3}\)\s*\d{3}[-.\s]?\d{4} *)
    [ one (is_char 40); rep is_digit 3; one (is_char 41); star is_space;
      rep is_digit 3; opt sep; rep is_digit 4 ] ].

(** [[a-zA-Z0-9._%+-]], [[a-zA-Z0-9.-]], [[a-zA-Z0-9_]], [[a-zA-Z0-9.]] *)
Definition email_local (c : N) : bool :=
  alnum c || (c =? 46) || (c =? 95) || (c =? 37) || (c =? 43) || (c =? 45).
Definition email_domain (c : N) : bool := alnum c || (c =? 46) || (c =? 45).
Definition word_char (c : N) : bool := alnum c || (c =? 95).
Definition alnum_dot (c : N) : bool := alnum c || (c =? 46).

(** [EMAIL_PATTERN], used with [re.IGNORECASE]:
    [[a-zA-Z0-9._%+-]+@[a-zA-Z0-9.-]+\.[a-zA-Z]{2,}] *)
Definition EMAIL_PATTERN : pattern :=
  [ plus (icase email_local); one (icase (is_char 64));
    plus (icase email_domain); one (icase (is_char 46));
    at_least (icase alpha) 2 ].

(** [SOCIAL_PATTERNS], used with [re.IGNORECASE] *)
Definition SOCIAL_PATTERNS : list pattern :=
  [ (* @[a-zA-Z0-9_]{3,} *)
    [ one (icase (is_char 64)); at_least (icase word_char) 3 ];
    (* instagram\.com/[a-zA-Z0-9_]+ *)
    ilit (str "instagram.com/") ++ [ plus (icase word_char) ];
    (* twitter\.com/[a-zA-Z0-9_]+ *)
    ilit (str "twitter.com/") ++ [ plus (icase word_char) ];
    (* facebook\.com/[a-zA-Z0-9.]+ *)
    ilit (str "facebook.com/") ++ [ plus (icase alnum_dot) ];
    (* t\.me/[a-zA-Z0-9_]+ *)
    ilit (str "t.me/") ++ [ plus (icase word_char) ] ].

(** The redaction tokens. *)
Definition PHONE_TOKEN : text := str "[telefon gizlendi]".
Definition EMAIL_TOKEN : text := str "[email gizlendi]".
Definition SOCIAL_TOKEN : text := str "[sosyal medya gizlendi]".
(** "[içerik gizlendi]": the second letter is U+00E7. *)
Definition BANNED_TOKEN : text := str "[i" ++ [231] ++ str "erik gizlendi]".

Inductive ViolationType :=
  | phone_number | email | social_media | profanity | banned_word.

Record Violation := { v_type : ViolationType; v_matches : list text }.

(** The dictionary [filter_ugc_content] returns. *)
Record FilterResult := {
  filtered_text : text;
  original_text : text;
  is_clean : bool;
  violations : list Violation
}.

(** The two locals [filtered] and [violations] that every pass updates. *)
Definition fstate : Type := text * list Violation.

(** One regex pass:
<<
    matches = re.findall(pattern, filtered)
    if matches:
        violations.append({'type': kind, 'matches': matches})
        filtered = re.sub(pattern, token, filtered)
>> *)
Definition redact (kind : ViolationType) (token : text)
    (st : fstate) (p : pattern) : fstate :=
  match findall p st.1 with
  | [] => st
  | matches => (sub p token st.1, st.2 ++ [Build_Violation kind matches])
  end.

Definition phone_pass (st : fstate) : fstate :=
  foldl (redact phone_number PHONE_TOKEN) st PHONE_PATTERNS.

Definition email_pass (st : fstate) : fstate :=
  redact email EMAIL_TOKEN st EMAIL_PATTERN.

Definition social_pass (st : fstate) : fstate :=
  foldl (redact social_media SOCIAL_TOKEN) st SOCIAL_PATTERNS.

Definition profanity_pass (st : fstate) : fstate :=
  if contains_profanity st.1
  then (censor st.1, st.2 ++ [Build_Violation profanity []])
  else st.

(** A row of [BannedWord]. *)
Record BannedWord := { word : text; is_regex : bool; is_active : bool }.

(** [BannedWord.objects.filter(is_active=True).values_list('word', 'is_regex')] *)
Definition active_entries (table : list BannedWord) : list (text * bool) :=
  map (λ b, (word b, is_regex b)) (filter (λ b, is_active b = true) table).

(** [needle in haystack] on strings. *)
Fixpoint starts_with (needle s : text) : bool :=
  match needle, s with
  | [], _ => true
  | x :: n', y :: s' => (x =? y) && starts_with n' s'
  | _ :: _, [] => false
  end.

Fixpoint contains (needle s : text) : bool :=
  starts_with needle s ||
  match s with
  | [] => false
  | _ :: s' => contains needle s'
  end.

(** [re.compile(re.escape(word), re.IGNORECASE)] *)
Definition escaped (w : text) : pattern := map (λ x, one (sre_ieq x)) w.

(** The loop over the banned words.  An exception inside the loop
    ([re.error] on a bad moderator pattern) leaves it; the enclosing
    [except Exception: pass] keeps what the locals held at that point. *)
Fixpoint banned_loop (entries : list (text * bool)) (st : fstate) : fstate :=
  match entries with
  | [] => st
  | (w, true) :: rest =>
    match re_search_i w st.1 with
    | None => st
    | Some true =>
      banned_loop rest
        (re_sub_i w BANNED_TOKEN st.1, st.2 ++ [Build_Violation banned_word [w]])
    | Some false => banned_loop rest st
    end
  | (w, false) :: rest =>
    if contains (str_lower w) (str_lower st.1)
    then banned_loop rest
           (sub (escaped w) BANNED_TOKEN st.1,
            st.2 ++ [Build_Violation banned_word [w]])
    else banned_loop rest st
  end.

(** The banned-word table as the filter sees it: [None] when the query
    raises (the store is unreachable). *)
Definition banned_pass (store : option (list BannedWord)) (st : fstate) : fstate :=
  match store with
  | None => st
  | Some table => banned_loop (active_entries table) st
  end.

(** [filter_ugc_content]; the argument is [None] for Python's [None]. *)
Definition filter_ugc_content (store : option (list BannedWord))
    (input : option text) : FilterResult :=
  match input with
  | None | Some [] =>
    {| filtered_text := []; original_text := []; is_clean := true;
       violations := [] |}
  | Some original =>
    let st := banned_pass store
                (profanity_pass (social_pass (email_pass (phone_pass (original, []))))) in
    {| filtered_text := st.1; original_text := original;
       is_clean := bool_decide (length st.2 = 0%nat);
       violations := st.2 |}
  end.

(** [is_content_safe] *)
Definition is_content_safe (store : option (list BannedWord)) (t : option text) : bool :=
  is_clean (filter_ugc_content store t).

End WithRuntime.
End Moderation.

(** A runtime for running the filter on plain examples: ASCII case
    mapping, an empty profanity word list, and no pattern accepted from
    moderators.  On texts made of ASCII and the tokens' letters, without
    profanity and with literal banned words, it agrees with CPython. *)
Module Plain.
Import Re.
Definition lower_char (c : N) : N := if is_upper c then c + 32 else c.
Definition plain : Runtime := {|
  unicode_decimal := λ _, false;
  str_lower := map lower_char;
  sre_ieq := λ x c, lower_char c =? lower_char x;
  re_search_i := λ _ _, None;
  re_sub_i := λ _ _ s, s;
  contains_profanity := λ _, false;
  censor := λ s, s
|}.
End Plain.

Local Open Scope Z_scope.

(** ** Rows of the relational store

    Primary keys and foreign keys are integers, timestamps are integers on
    one clock, and [timezone.now()] is the [now] argument of the operations
    that read it. *)

Module Accounts.

(** [accounts.User], the fields the chat code reads. *)
Record User := {
  pk : Z;
  email : text;
  display_name : text;
  is_active : bool
}.

(** [s.split('@')[0]] *)
Fixpoint before_at (s : text) : text :=
  match s with
  | [] => []
  | c :: s' => if (c =? 64)%N then [] else c :: before_at s'
  end.

(** [User.get_short_name]: [self.display_name or self.email.split('@')[0]],
    the expression the consumer sends as [user_name]. *)
Definition get_short_name (u : User) : text :=
  match display_name u with
  | [] => before_at (email u)
  | name => name
  end.

(** [accounts.BlockedUser] *)
Record BlockedUser := { blocker : Z; blocked : Z }.

End Accounts.

Module Activities.

Inductive ActivityStatus := active | full | completed | cancelled.

#[global] Instance ActivityStatus_eq_dec : EqDecision ActivityStatus.
Proof. solve_decision. Defined.

(** [activities.Activity], the fields that capacity, status and the
    view's queryset depend on. *)
Record Activity := {
  pk : Z;
  creator : Z;
  start_time : Z;
  end_time : option Z;
  max_participants : Z;
  current_participants : Z;
  status : ActivityStatus;
  is_active : bool
}.

Definition is_full (a : Activity) : bool :=
  bool_decide (max_participants a ≤ current_participants a).

Definition spots_left (a : Activity) : Z :=
  Z.max 0 (max_participants a - current_participants a).

Definition is_past (now : Z) (a : Activity) : bool :=
  match end_time a with
  | None => bool_decide (start_time a < now)
  | Some e => bool_decide (e < now)
  end.

Definition set_status (s : ActivityStatus) (a : Activity) : Activity :=
  {| pk := pk a; creator := creator a; start_time := start_time a;
     end_time := end_time a; max_participants := max_participants a;
     current_participants := current_participants a; status := s;
     is_active := is_active a |}.

Definition set_current_participants (n : Z) (a : Activity) : Activity :=
  {| pk := pk a; creator := creator a; start_time := start_time a;
     end_time := end_time a; max_participants := max_participants a;
     current_participants := n; status := status a;
     is_active := is_active a |}.

(** The first lines of [Activity.save]: the status the instance holds when
    [super().save] is reached. *)
Definition auto_update_status (now : Z) (a : Activity) : Activity :=
  if is_full a && bool_decide (status a = active) then set_status full a
  else if is_past now a && bool_decide (status a ∈ [active; full])
       then set_status completed a
  else a.

(** The columns [save(update_fields=...)] can name. *)
Inductive ActivityField :=
  | f_creator | f_start_time | f_end_time | f_max_participants
  | f_current_participants | f_status | f_is_active.

#[global] Instance ActivityField_eq_dec : EqDecision ActivityField.
Proof. solve_decision. Defined.

(** The row [super().save(update_fields=fields)] leaves in the table: the
    whole instance, or the old row with just the named columns taken from
    the instance. *)
Definition written_row (fields : option (list ActivityField))
    (inst row : Activity) : Activity :=
  match fields with
  | None => inst
  | Some fs =>
    let pick {A} (f : ActivityField) (proj : Activity → A) : A :=
      if bool_decide (f ∈ fs) then proj inst else proj row in
    {| pk := pk row;
       creator := pick f_creator creator;
       start_time := pick f_start_time start_time;
       end_time := pick f_end_time end_time;
       max_participants := pick f_max_participants max_participants;
       current_participants := pick f_current_participants current_participants;
       status := pick f_status status;
       is_active := pick f_is_active is_active |}
  end.

Definition update_row (fields : option (list ActivityField)) (inst : Activity)
    (table : list Activity) : list Activity :=
  map (λ row, if bool_decide (pk row = pk inst)
              then written_row fields inst row else row) table.

(** [Activity.save] on an instance that is already stored: the instance
    after the call and the table after the call. *)
Definition save (fields : option (list ActivityField)) (now : Z)
    (inst : Activity) (table : list Activity) : Activity * list Activity :=
  let inst' := auto_update_status now inst in
  (inst', update_row fields inst' table).

Inductive ParticipationStatus := pending | approved | rejected | p_cancelled.

#[global] Instance ParticipationStatus_eq_dec : EqDecision ParticipationStatus.
Proof. solve_decision. Defined.

(** [activities.ActivityParticipation] *)
Record ActivityParticipation := {
  p_pk : Z;
  p_activity : Z;
  p_user : Z;
  p_status : ParticipationStatus;
  group_member_count : Z;
  responded_at : option Z
}.

Definition respond (s : ParticipationStatus) (now : Z)
    (p : ActivityParticipation) : ActivityParticipation :=
  {| p_pk := p_pk p; p_activity := p_activity p; p_user := p_user p;
     p_status := s; group_member_count := group_member_count p;
     responded_at := Some now |}.

(** [ActivityParticipation.save] *)
Definition save_participation (p : ActivityParticipation)
    (table : list ActivityParticipation) : list ActivityParticipation :=
  map (λ row, if bool_decide (p_pk row = p_pk p) then p else row) table.

End Activities.

Module Messaging.

(** ['activity'] and ['direct'] of [Conversation.TYPE_CHOICES]. *)
Inductive ConversationType := activity_chat | direct.

#[global] Instance ConversationType_eq_dec : EqDecision ConversationType.
Proof. solve_decision. Defined.

(** [messaging.Conversation]; the many-to-many [participants] is the set of
    user keys linked to the row. *)
Record Conversation := {
  conv_pk : Z;
  activity_id : option Z;
  participants : gset Z;
  conversation_type : ConversationType;
  conv_created_at : Z;
  last_message_at : Z
}.

Definition set_participants (ps : gset Z) (c : Conversation) : Conversation :=
  {| conv_pk := conv_pk c; activity_id := activity_id c; participants := ps;
     conversation_type := conversation_type c;
     conv_created_at := conv_created_at c;
     last_message_at := last_message_at c |}.

(** [Conversation.save()]: [last_message_at] is [auto_now]. *)
Definition touch (now : Z) (c : Conversation) : Conversation :=
  {| conv_pk := conv_pk c; activity_id := activity_id c;
     participants := participants c;
     conversation_type := conversation_type c;
     conv_created_at := conv_created_at c;
     last_message_at := now |}.

(** [messaging.Message] *)
Record Message := {
  msg_pk : Z;
  conversation : Z;
  sender : Z;
  content : text;
  is_filtered : bool;
  original_content : text;
  is_read : bool;
  read_at : option Z;
  created_at : Z
}.

Definition set_read (r : bool) (at_ : option Z) (m : Message) : Message :=
  {| msg_pk := msg_pk m; conversation := conversation m; sender := sender m;
     content := content m; is_filtered := is_filtered m;
     original_content := original_content m;
     is_read := r; read_at := at_; created_at := created_at m |}.

(** [Message.mark_as_read]: the instance after the call; [save] writes the
    two columns [is_read] and [read_at]. *)
Definition mark_as_read (now : Z) (m : Message) : Message :=
  if is_read m then m else set_read true (Some now) m.

(** The queryset
    [conversation.messages.filter(is_read=False).exclude(sender=user)]. *)
Definition unread_from_others (cid user : Z) (m : Message) : bool :=
  bool_decide (conversation m = cid) && negb (is_read m)
  && negb (bool_decide (sender m = user)).

(** [.update(is_read=True)] on that queryset: one SQL [UPDATE] that sets
    the [is_read] column of the selected rows, and the number of rows. *)
Definition update_is_read (cid user : Z) (table : list Message) : list Message :=
  map (λ m, if unread_from_others cid user m
            then set_read true (read_at m) m else m) table.

Definition count_unread (cid user : Z) (table : list Message) : nat :=
  length (filter (λ m, unread_from_others cid user m = true) table).

End Messaging.

(** ** The store *)

Record DB := {
  users : list Accounts.User;
  blocked_users : list Accounts.BlockedUser;
  activities : list Activities.Activity;
  participations : list Activities.ActivityParticipation;
  conversations : list Messaging.Conversation;
  messages : list Messaging.Message;
  (** [None] when the banned-word query raises. *)
  banned_words : option (list Moderation.BannedWord)
}.

Definition set_activities (t : list Activities.Activity) (d : DB) : DB :=
  {| users := users d; blocked_users := blocked_users d; activities := t;
     participations := participations d; conversations := conversations d;
     messages := messages d; banned_words := banned_words d |}.

Definition set_participations (t : list Activities.ActivityParticipation)
    (d : DB) : DB :=
  {| users := users d; blocked_users := blocked_users d;
     activities := activities d; participations := t;
     conversations := conversations d; messages := messages d;
     banned_words := banned_words d |}.

Definition set_conversations (t : list Messaging.Conversation) (d : DB) : DB :=
  {| users := users d; blocked_users := blocked_users d;
     activities := activities d; participations := participations d;
     conversations := t; messages := messages d;
     banned_words := banned_words d |}.

Definition set_messages (t : list Messaging.Message) (d : DB) : DB :=
  {| users := users d; blocked_users := blocked_users d;
     activities := activities d; participations := participations d;
     conversations := conversations d; messages := t;
     banned_words := banned_words d |}.

(** The key an auto-incrementing primary key gives the next row. *)
Definition next_pk (pks : list Z) : Z := 1 + foldr Z.max 0 pks.

(** HTTP responses: a status code and, when there is one, a body. *)
Inductive Response (A : Type) :=
  | Ok (status : Z) (body : A)
  | Err (status : Z).
Arguments Ok {A} status body.
Arguments Err {A} status.

(** [str.strip()] *)
Fixpoint lstrip (s : text) : text :=
  match s with
  | c :: s' => if Re.is_space c then lstrip s' else s
  | [] => []
  end.

Definition strip (s : text) : text := rev (lstrip (rev (lstrip s))).

(** The characters that the validators every [CharField] carries,
    [ProhibitNullCharactersValidator] and
    [ProhibitSurrogateCharactersValidator], let pass: all but the null
    character and the surrogates U+D800 to U+DFFF. *)
Definition permitted (c : N) : bool :=
  negb (c =? 0)%N && negb (Re.between 55296 57343 c).

(** A [serializers.CharField(max_length=n)] on a submitted string: a
    string that is blank after trimming is rejected, or with [allow_blank]
    accepted as the empty string before any validator runs; any other is
    trimmed and then rejected when it is too long or holds a character
    that is not permitted. *)
Definition char_field (max_length : nat) (allow_blank : bool) (raw : text)
    : option text :=
  let v := strip raw in
  if bool_decide (v = []) && negb allow_blank then None
  else if bool_decide (length v ≤ max_length)%nat && forallb permitted v
       then Some v
  else None.

(** ** [activities/models.py] methods that write, and [activities/views.py] *)

Module ActivityViews.
Import Accounts Activities.

(** [ActivityParticipation.approve].  [activity] is the instance behind
    [self.activity]; the view hands over the one it loaded. *)
Definition approve (now : Z) (p : ActivityParticipation) (activity : Activity)
    (db : DB) : ActivityParticipation * Activity * DB :=
  if bool_decide (p_status p ≠ approved) then
    let p' := respond approved now p in
    let db1 := set_participations (save_participation p' (participations db)) db in
    let bumped :=
      set_current_participants
        (current_participants activity + group_member_count p) activity in
    let '(activity', table) :=
      save (Some [f_current_participants]) now bumped (activities db1) in
    (p', activity', set_activities table db1)
  else (p, activity, db).

(** [ActivityParticipation.reject] *)
Definition reject (now : Z) (p : ActivityParticipation) (db : DB)
    : ActivityParticipation * DB :=
  let p' := respond rejected now p in
  (p', set_participations (save_participation p' (participations db)) db).

(** [ActivityViewSet.get_queryset] for a request without query parameters. *)
Definition blocked_ids (user : Z) (db : DB) : list Z :=
  map blocked (filter (λ b, blocker b = user) (blocked_users db)).

Definition blocked_by_ids (user : Z) (db : DB) : list Z :=
  map blocker (filter (λ b, blocked b = user) (blocked_users db)).

Definition get_queryset (user now : Z) (db : DB) : list Activity :=
  filter (λ a, is_active a = true ∧ now ≤ start_time a
               ∧ (creator a ∉ blocked_ids user db)
               ∧ (creator a ∉ blocked_by_ids user db))
         (activities db).

(** [self.get_object()]: the row of the queryset with the key of the URL. *)
Definition get_object (user now key : Z) (db : DB) : option Activity :=
  head (filter (λ a, pk a = key) (get_queryset user now db)).

(** [ParticipationResponseSerializer]: a choice between two strings. *)
Inductive ResponseAction := act_approve | act_reject.

Definition validate_action (action : string) : option ResponseAction :=
  if bool_decide (action = "approve"%string) then Some act_approve
  else if bool_decide (action = "reject"%string) then Some act_reject
  else None.

(** [ActivityViewSet.respond_to_application]; the push notification to the
    applicant does not touch the store and is left out. *)
Definition respond_to_application (user key participation_id : Z)
    (action : string) (now : Z) (db : DB)
    : Response ActivityParticipation * DB :=
  match get_object user now key db with
  | None => (Err 404, db)
  | Some activity =>
    if bool_decide (creator activity ≠ user) then (Err 403, db)
    else
      match head (filter (λ p, p_activity p = pk activity
                               ∧ p_pk p = participation_id)
                         (participations db)) with
      | None => (Err 404, db)
      | Some participation =>
        match validate_action action with
        | None => (Err 400, db)
        | Some act_approve =>
          (* Check capacity *)
          if bool_decide (spots_left activity < group_member_count participation)
          then (Err 400, db)
          else
            let '(p', _, db') := approve now participation activity db in
            (Ok 200 p', db')
        | Some act_reject =>
          let '(p', db') := reject now participation db in
          (Ok 200 p', db')
        end
      end
  end.

End ActivityViews.

(** ** [messaging/views.py] *)

Module MessagingViews.
Import Accounts Messaging Moderation.

Section WithRuntime.
Context `{Runtime}.

(** The statement the three writers of messages share word for word
    ([SendMessageView.post], [ChatConsumer.save_message] and the initial
    message of [CreateConversationView.post]):
<<
    result = filter_ugc_content(content)
    message = Message.objects.create(
        conversation=conversation, sender=user,
        content=result['filtered_text'] if not result['is_clean'] else content,
        is_filtered=not result['is_clean'],
        original_content=content if not result['is_clean'] else '')
>> *)
Definition create_message (cid user : Z) (raw : text) (now : Z) (db : DB)
    : Message * DB :=
  let result := filter_ugc_content (banned_words db) (Some raw) in
  let m :=
    {| msg_pk := next_pk (map msg_pk (messages db));
       conversation := cid;
       sender := user;
       content := if negb (is_clean result) then filtered_text result else raw;
       is_filtered := negb (is_clean result);
       original_content := if negb (is_clean result) then raw else [];
       is_read := false;
       read_at := None;
       created_at := now |} in
  (m, set_messages (messages db ++ [m]) db).

(** [conversation.save()] on a loaded instance: the row is rewritten with
    [last_message_at] set to the current time. *)
Definition save_conversation (now : Z) (c : Conversation) (db : DB) : DB :=
  set_conversations
    (map (λ row, if bool_decide (conv_pk row = conv_pk c) then touch now c else row)
         (conversations db)) db.

(** [Conversation.objects.get(id=cid, participants=user)] *)
Definition get_conversation_of (user cid : Z) (db : DB) : option Conversation :=
  head (filter (λ c, conv_pk c = cid ∧ user ∈ participants c) (conversations db)).

(** The submitted fields of a create-conversation request. *)
Record CreateConversationData := {
  participant_ids : list Z;
  data_activity_id : option Z;
  initial_message : option text
}.

(** [CreateConversationSerializer]: one to ten ids, and a message of at
    most 2000 characters that may be blank or absent. *)
Definition validate_create (d : CreateConversationData) : option text :=
  if bool_decide (1 ≤ length (participant_ids d) ≤ 10)%nat then
    match initial_message d with
    | None => Some []
    | Some raw => char_field 2000 true raw
    end
  else None.

(** Both columns of every block row that names the user on either side. *)
Definition blocked_flat (user : Z) (db : DB) : list Z :=
  flat_map (λ b, [blocker b; blocked b])
    (filter (λ b, blocker b = user ∨ blocked b = user) (blocked_users db)).

(** [Conversation.objects.filter(participants=user, conversation_type='direct')
      .filter(participants=partner)] *)
Definition direct_with (user partner : Z) (db : DB) : list Conversation :=
  filter (λ c, user ∈ participants c ∧ conversation_type c = direct
               ∧ partner ∈ participants c)
         (conversations db).

(** [.first()] under [Meta.ordering = ['-last_message_at']]: a row with the
    greatest [last_message_at]; among equals, the one stored first. *)
Fixpoint first_latest (l : list Conversation) : option Conversation :=
  match l with
  | [] => None
  | c :: l' =>
    match first_latest l' with
    | Some d => if bool_decide (last_message_at c < last_message_at d)
                then Some d else Some c
    | None => Some c
    end
  end.

(** Python truth of an optional integer: [None] and [0] are false. *)
Definition truthy (x : option Z) : bool :=
  match x with
  | Some v => negb (bool_decide (v = 0))
  | None => false
  end.

(** Whether an optional reference to an activity points at a stored row. *)
Definition fk_holds (aid : option Z) (db : DB) : bool :=
  match aid with
  | Some a => bool_decide (a ∈ map Activities.pk (activities db))
  | None => true
  end.

(** [CreateConversationView.post].  Creating a row that points at an
    activity which is not stored violates the foreign key; the request
    then fails with a server error. *)
Definition create_conversation (user : Z) (d : CreateConversationData)
    (now : Z) (db : DB) : Response Conversation * DB :=
  match validate_create d with
  | None => (Err 400, db)
  | Some initial =>
    let pids := participant_ids d in
    let aid := data_activity_id d in
    (* Check for blocked users *)
    if bool_decide (Exists (λ pid, pid ∈ blocked_flat user db) pids)
    then (Err 400, db)
    else
      (* Check if conversation already exists (for direct messages) *)
      let existing :=
        match pids with
        | [partner] =>
          if negb (truthy aid) then first_latest (direct_with user partner db)
          else None
        | _ => None
        end in
      let found :=
        match existing with
        | Some c =>
          if bool_decide (size (participants c) = 2%nat) then Some c else None
        | None => None
        end in
      match found with
      | Some c => (Ok 200 c, db)
      | None =>
        if fk_holds aid db then
          let added := filter (λ u, pk u ∈ pids ∧ Accounts.is_active u = true) (users db) in
          let c :=
            {| conv_pk := next_pk (map conv_pk (conversations db));
               activity_id := aid;
               participants := {[ user ]} ∪ list_to_set (map pk added);
               conversation_type := if truthy aid then activity_chat else direct;
               conv_created_at := now;
               last_message_at := now |} in
          let db1 := set_conversations (conversations db ++ [c]) db in
          let db2 :=
            match initial with
            | [] => db1
            | _ => (create_message (conv_pk c) user initial now db1).2
            end in
          (Ok 201 c, db2)
        else (Err 500, db)
      end
  end.

(** [SendMessageView.post]; [raw] is the submitted [content], if any. *)
Definition send_message (user cid : Z) (raw : option text) (now : Z) (db : DB)
    : Response Message * DB :=
  match get_conversation_of user cid db with
  | None => (Err 404, db)
  | Some conversation =>
    match raw ≫= char_field 2000 false with
    | None => (Err 400, db)
    | Some content =>
      let '(m, db1) := create_message (conv_pk conversation) user content now db in
      (* Update conversation timestamp *)
      (Ok 201 m, save_conversation now conversation db1)
    end
  end.

(** [MarkMessagesReadView.post] *)
Definition mark_messages_read (user cid : Z) (db : DB) : Response nat * DB :=
  match get_conversation_of user cid db with
  | None => (Err 404, db)
  | Some conversation =>
    let updated := count_unread (conv_pk conversation) user (messages db) in
    (Ok 200 updated,
     set_messages (update_is_read (conv_pk conversation) user (messages db)) db)
  end.

(** [ConversationDetailView.retrieve]: the queryset is the user's
    conversations; the body is the conversation with its messages. *)
Definition retrieve (user key : Z) (db : DB)
    : Response (Conversation * list Message) * DB :=
  match head (filter (λ c, conv_pk c = key)
                (filter (λ c, user ∈ participants c) (conversations db))) with
  | None => (Err 404, db)
  | Some instance =>
    (* Mark messages as read *)
    let table := update_is_read (conv_pk instance) user (messages db) in
    (Ok 200 (instance, filter (λ m, conversation m = conv_pk instance) table),
     set_messages table db)
  end.

End WithRuntime.
End MessagingViews.

(** ** [messaging/consumers.py]

    Every WebSocket connection has its own consumer instance and its own
    channel name.  The channel layer holds the groups; [group_send] hands an
    event to every channel of a group, and the consumer behind the channel
    runs the handler named by the event's type.  Frames written with
    [self.send] are collected per consumer in [sent]. *)

Module Consumers.
Import Accounts Messaging Moderation MessagingViews.

(** [scope.get('user')]: absent, [AnonymousUser()], or a user row. *)
Inductive ScopeUser := no_user | anonymous | authenticated (u : User).

Definition is_authenticated (s : ScopeUser) : bool :=
  match s with
  | authenticated _ => true
  | _ => false
  end.

(** [self.user.id] ([AnonymousUser.id] is [None]). *)
Definition scope_user_id (s : ScopeUser) : option Z :=
  match s with
  | authenticated u => Some (pk u)
  | _ => None
  end.

(** The dictionary [save_message] returns (without the avatar URL). *)
Record MessageData := {
  md_id : Z;
  md_sender_id : Z;
  md_sender_display_name : text;
  md_content : text;
  md_is_filtered : bool;
  md_created_at : Z
}.

(** Events sent through the channel layer, by handler name. *)
Inductive Event :=
  | ev_chat_message (message : MessageData)
  | ev_typing_indicator (user_id : Z) (user_name : text) (is_typing : bool)
  | ev_messages_read (user_id : Z).

(** Frames written to a WebSocket. *)
Inductive Frame :=
  | frame_chat_message (message : MessageData)
  | frame_typing (user_id : Z) (user_name : text) (is_typing : bool)
  | frame_read (user_id : Z).

(** What [json.loads(text_data)] and [data.get('type')] make of a frame
    from the client. *)
Inductive Payload :=
  | undecodable
  | chat_message_payload (content : option text)
  | typing_payload (is_typing : option bool)
  | read_payload
  | other_payload.

(** A consumer is [Joined] from [accept()] until it is closed or dies. *)
Inductive ConnState := Joined | Closed.

#[global] Instance ConnState_eq_dec : EqDecision ConnState.
Proof. solve_decision. Defined.

(** The attributes [connect] sets on the consumer, its state, and the
    frames it has written.  [messaging/routing.py], which declares the URL
    route, is not among the sources; the specification addresses the
    stream by conversation id, and [conversation_id] is that integer key,
    as in the HTTP routes. *)
Record Consumer := {
  user : ScopeUser;
  conversation_id : Z;
  state : ConnState;
  sent : list Frame
}.

Definition set_state (s : ConnState) (c : Consumer) : Consumer :=
  {| user := user c; conversation_id := conversation_id c; state := s;
     sent := sent c |}.

Definition push (fs : list Frame) (c : Consumer) : Consumer :=
  {| user := user c; conversation_id := conversation_id c; state := state c;
     sent := sent c ++ fs |}.

Record World := {
  db : DB;
  groups : gmap string (gset string);
  consumers : gmap string Consumer
}.

Definition set_db (d : DB) (w : World) : World :=
  {| db := d; groups := groups w; consumers := consumers w |}.
Definition set_groups (g : gmap string (gset string)) (w : World) : World :=
  {| db := db w; groups := g; consumers := consumers w |}.
Definition set_consumers (cs : gmap string Consumer) (w : World) : World :=
  {| db := db w; groups := groups w; consumers := cs |}.

(** [f'chat_{self.conversation_id}'] *)
Definition room_group_name (cid : Z) : string := ("chat_" +:+ pretty cid)%string.

Definition members (g : string) (w : World) : gset string :=
  default ∅ (groups w !! g).

Definition group_add (g channel : string) (w : World) : World :=
  set_groups (<[ g := {[ channel ]} ∪ members g w ]> (groups w)) w.

Definition group_discard (g channel : string) (w : World) : World :=
  set_groups (alter (λ s, s ∖ {[ channel ]}) g (groups w)) w.

(** The handlers [chat_message], [typing_indicator] and [messages_read]:
    the frames a consumer writes when the event reaches it. *)
Definition handle (c : Consumer) (e : Event) : list Frame :=
  match e with
  | ev_chat_message m => [frame_chat_message m]
  | ev_typing_indicator uid name typing =>
    if bool_decide (Some uid ≠ scope_user_id (user c))
    then [frame_typing uid name typing] else []
  | ev_messages_read uid => [frame_read uid]
  end.

(** [channel_layer.group_send]: the event reaches the live consumers whose
    channels are in the group. *)
Definition group_send (g : string) (e : Event) (w : World) : World :=
  set_consumers
    (map_imap (λ channel c,
       Some (if bool_decide (channel ∈ members g w)
                && bool_decide (state c = Joined)
             then push (handle c e) c else c))
       (consumers w)) w.

Section WithRuntime.
Context `{Runtime}.

(** [ChatConsumer.check_participant] *)
Definition check_participant (u : User) (cid : Z) (d : DB) : bool :=
  bool_decide (Exists (λ c, conv_pk c = cid ∧ pk u ∈ participants c)
                 (conversations d)).

(** [ChatConsumer.connect], with the close that follows a refusal. *)
Definition connect (channel : string) (u : ScopeUser) (cid : Z) (w : World)
    : World :=
  let refused :=
    set_consumers (<[ channel := Build_Consumer u cid Closed [] ]> (consumers w)) w in
  match u with
  | authenticated row =>
    (* Verify user is participant *)
    if check_participant row cid (db w) then
      (* Join room group *)
      let w1 := group_add (room_group_name cid) channel w in
      set_consumers (<[ channel := Build_Consumer u cid Joined [] ]> (consumers w1)) w1
    else refused
  | _ => refused
  end.

(** [ChatConsumer.disconnect] *)
Definition disconnect (channel : string) (c : Consumer) (w : World) : World :=
  let w1 := group_discard (room_group_name (conversation_id c)) channel w in
  set_consumers (<[ channel := set_state Closed c ]> (consumers w1)) w1.

(** [ChatConsumer.save_message]; [None] when
    [Conversation.objects.get(id=...)] raises. *)
Definition save_message (u : User) (cid : Z) (content : text) (now : Z) (d : DB)
    : option (MessageData * DB) :=
  match head (filter (λ c, conv_pk c = cid) (conversations d)) with
  | None => None
  | Some conversation =>
    let '(m, d1) := create_message (conv_pk conversation) (pk u) content now d in
    (* Update conversation timestamp *)
    let d2 := save_conversation now conversation d1 in
    Some ({| md_id := msg_pk m; md_sender_id := pk u;
             md_sender_display_name := get_short_name u;
             md_content := Messaging.content m;
             md_is_filtered := is_filtered m;
             md_created_at := created_at m |}, d2)
  end.

(** [ChatConsumer.mark_messages_read] *)
Definition ws_mark_messages_read (u : User) (cid : Z) (d : DB) : option DB :=
  match head (filter (λ c, conv_pk c = cid) (conversations d)) with
  | None => None
  | Some conversation =>
    Some (set_messages (update_is_read (conv_pk conversation) (pk u) (messages d)) d)
  end.

(** An exception that leaves [receive] ends the consumer; [disconnect] is
    not run for it. *)
Definition crash (channel : string) (c : Consumer) (w : World) : World :=
  set_consumers (<[ channel := set_state Closed c ]> (consumers w)) w.

(** [ChatConsumer.receive] with [handle_chat_message], [handle_typing] and
    [handle_read], on a consumer of an authenticated user. *)
Definition receive (channel : string) (c : Consumer) (u : User)
    (data : Payload) (now : Z) (w : World) : World :=
  let room := room_group_name (conversation_id c) in
  match data with
  | undecodable | other_payload => w
  | chat_message_payload content =>
    match strip (default [] content) with
    | [] => w
    | content =>
      (* Save message to database *)
      match save_message u (conversation_id c) content now (db w) with
      | None => crash channel c w
      | Some (message_data, d) =>
        (* Broadcast to room *)
        group_send room (ev_chat_message message_data) (set_db d w)
      end
    end
  | typing_payload is_typing =>
    group_send room
      (ev_typing_indicator (pk u) (get_short_name u) (default false is_typing)) w
  | read_payload =>
    match ws_mark_messages_read u (conversation_id c) (db w) with
    | None => crash channel c w
    | Some d => group_send room (ev_messages_read (pk u)) (set_db d w)
    end
  end.

(** What can happen to the chat system: a connection attempt on a new
    channel, a frame or a disconnect on a connection, and any other write
    to the store. *)
Inductive Input :=
  | ws_connect (channel : string) (u : ScopeUser) (cid : Z)
  | ws_receive (channel : string) (data : Payload) (now : Z)
  | ws_disconnect (channel : string)
  | db_write (f : DB → DB).

Definition step (w : World) (i : Input) : World :=
  match i with
  | ws_connect channel u cid =>
    match consumers w !! channel with
    | None => connect channel u cid w
    | Some _ => w
    end
  | ws_receive channel data now =>
    match consumers w !! channel with
    | Some c =>
      match state c, user c with
      | Joined, authenticated u => receive channel c u data now w
      | _, _ => w
      end
    | None => w
    end
  | ws_disconnect channel =>
    match consumers w !! channel with
    | Some c => disconnect channel c w
    | None => w
    end
  | db_write f => set_db (f (db w)) w
  end.

Definition run (w : World) (inputs : list Input) : World := foldl step w inputs.

Definition start (d : DB) : World := {| db := d; groups := ∅; consumers := ∅ |}.

End WithRuntime.
End Consumers.

(** ** [messaging/middleware.py] *)

Module Middleware.
Import Accounts Consumers.

(** [s.split(sep)] for a separator of one character. *)
Fixpoint split_on (sep : N) (s : text) : list text :=
  match s with
  | [] => [[]]
  | c :: s' =>
    if (c =? sep)%N then [] :: split_on sep s'
    else match split_on sep s' with
         | piece :: rest => (c :: piece) :: rest
         | [] => [[c]]
         end
  end.

(** [dict(...)] takes each item as a key and a value: an item that is not
    of length two raises [ValueError]. *)
Definition to_item (pieces : list text) : option (text * text) :=
  match pieces with
  | [k; v] => Some (k, v)
  | _ => None
  end.

(** [dict(param.split('=') for param in query_string.split('&') if '=' in param)]
    as the list of items in the order given; [None] when [dict] raises. *)
Definition query_params (query_string : text) : option (list (text * text)) :=
  mapM (λ param, to_item (split_on 61 param))
       (filter (λ param, 61%N ∈ param) (split_on 38 query_string)).

(** [d.get(key)] on the dictionary built from the items: the last item
    with the key wins. *)
Fixpoint dict_get (key : text) (items : list (text * text)) : option text :=
  match items with
  | [] => None
  | (k, v) :: rest =>
    match dict_get key rest with
    | Some v' => Some v'
    | None => if bool_decide (k = key) then Some v else None
    end
  end.

Section WithTokens.
(** [AccessToken(token_key)['user_id']] of [rest_framework_simplejwt];
    [None] when the library rejects the token (malformed, wrong signature,
    expired). *)
Variable access_token : text → option Z.

(** [get_user]: any exception, [User.DoesNotExist] included, gives
    [AnonymousUser()]. *)
Definition get_user (token_key : text) (d : DB) : ScopeUser :=
  match access_token token_key with
  | Some uid =>
    match head (filter (λ u, pk u = uid) (users d)) with
    | Some u => authenticated u
    | None => anonymous
    end
  | None => anonymous
  end.

(** [JWTAuthMiddleware.__call__]: the value it stores in [scope['user']];
    [None] when building the dictionary raises. *)
Definition scope_user (query_string : text) (d : DB) : option ScopeUser :=
  match query_params query_string with
  | None => None
  | Some params =>
    Some match dict_get (str "token") params with
         | Some (c :: t) => get_user (c :: t) d
         | _ => anonymous
         end
  end.

End WithTokens.
End Middleware.

(** ** More of [messaging/models.py] and [activities/views.py] *)

Module ConversationProperties.
Import Messaging.

(** [.order_by('-created_at').first()]: a row with the greatest
    [created_at]; among equals, the one stored first. *)
Fixpoint latest (l : list Message) : option Message :=
  match l with
  | [] => None
  | m :: l' =>
    match latest l' with
    | Some m' => if bool_decide (created_at m < created_at m')
                 then Some m' else Some m
    | None => Some m
    end
  end.

(** [Conversation.last_message] *)
Definition last_message (c : Conversation) (d : DB) : option Message :=
  latest (filter (λ m, conversation m = conv_pk c) (messages d)).

(** [Conversation.unread_count_for(user)] *)
Definition unread_count_for (c : Conversation) (user : Z) (d : DB) : nat :=
  length (filter (λ m, unread_from_others (conv_pk c) user m = true) (messages d)).

End ConversationProperties.

Module ActivityLifecycle.
Import Activities ActivityViews.

Definition set_is_active (b : bool) (a : Activity) : Activity :=
  {| pk := pk a; creator := creator a; start_time := start_time a;
     end_time := end_time a; max_participants := max_participants a;
     current_participants := current_participants a; status := status a;
     is_active := b |}.

(** [ActivityViewSet.perform_destroy]: a soft delete. *)
Definition perform_destroy (now : Z) (instance : Activity) (db : DB) : DB :=
  set_activities (save None now (set_is_active false instance) (activities db)).2 db.

(** The [destroy] action of the view set: [get_object], [perform_destroy],
    status 204. *)
Definition destroy (user key now : Z) (db : DB) : Response unit * DB :=
  match get_object user now key db with
  | None => (Err 404, db)
  | Some instance => (Ok 204 (), perform_destroy now instance db)
  end.

End ActivityLifecycle.

(** * Example data *)

Module Examples.
Import Accounts Activities Messaging Moderation MessagingViews Consumers.

(** The chat message of the specification's first scenario. *)
Definition phone_scenario : text := str "call me at 0532 123 45 67".

Definition alice : User :=
  {| Accounts.pk := 1; Accounts.email := str "alice@example.org";
     display_name := str "Alice"; Accounts.is_active := true |}.
Definition bob : User :=
  {| Accounts.pk := 2; Accounts.email := str "bob@example.org";
     display_name := []; Accounts.is_active := true |}.
Definition carol : User :=
  {| Accounts.pk := 3; Accounts.email := str "carol@example.org";
     display_name := str "Carol"; Accounts.is_active := true |}.

(** A direct conversation between alice and bob. *)
Definition chat_1_2 : Conversation :=
  {| conv_pk := 1; activity_id := None; participants := {[ 1; 2 ]};
     conversation_type := direct; conv_created_at := 10;
     last_message_at := 10 |}.

Definition empty_db : DB :=
  {| users := [alice; bob; carol]; blocked_users := []; activities := [];
     participations := []; conversations := []; messages := [];
     banned_words := Some [] |}.

Definition chat_db : DB := set_conversations [chat_1_2] empty_db.

(** An activity created by alice with room for five, four taken, and bob's
    pending application for a group of two. *)
Definition hike : Activity :=
  {| Activities.pk := 7; creator := 1; start_time := 1000; end_time := None;
     max_participants := 5; current_participants := 4; status := active;
     Activities.is_active := true |}.

Definition bobs_application : ActivityParticipation :=
  {| p_pk := 11; p_activity := 7; p_user := 2; p_status := pending;
     group_member_count := 2; responded_at := None |}.

Definition hike_db : DB :=
  set_participations [bobs_application] (set_activities [hike] empty_db).

(** Carol's application for one place, already approved and counted. *)
Definition carols_application : ActivityParticipation :=
  {| p_pk := 12; p_activity := 7; p_user := 3; p_status := approved;
     group_member_count := 1; responded_at := Some 50 |}.

Definition hike_db_carol : DB :=
  set_participations [carols_application] (set_activities [hike] empty_db).


(** Alice has blocked bob after they had talked. *)
Definition blocked_db : DB :=
  {| users := [alice; bob; carol];
     blocked_users := [ {| blocker := 1; blocked := 2 |} ];
     activities := []; participations := []; conversations := [chat_1_2];
     messages := []; banned_words := Some [] |}.

Definition ask_for (partner : Z) : CreateConversationData :=
  {| participant_ids := [partner]; data_activity_id := None;
     initial_message := None |}.

(** Alice, who already talks to bob, has then opened a conversation with
    bob and carol through the same endpoint, at time 15: a second direct
    conversation that contains alice and bob, and the more recent one. *)
Definition ask_for_both : CreateConversationData :=
  {| participant_ids := [2; 3]; data_activity_id := None;
     initial_message := None |}.

Definition chat_1_2_3 : Conversation :=
  {| conv_pk := 2; activity_id := None; participants := {[ 1; 2; 3 ]};
     conversation_type := direct; conv_created_at := 15;
     last_message_at := 15 |}.

Definition group_db : DB :=
  (@create_conversation Plain.plain 1 ask_for_both 15 chat_db).2.

(** A moderator has banned the word "gizlendi". *)
Definition banned_gizlendi : option (list BannedWord) :=
  Some [ {| word := str "gizlendi"; is_regex := false;
            Moderation.is_active := true |} ].

End Examples.

(** * Vocabulary of the properties *)

Section MatcherVocabulary.
Import Re.
Local Open Scope nat_scope.

(** No class of the pattern accepts the character. *)
Definition outside (p : pattern) (b : N) : bool :=
  forallb (λ a, negb (cls a b)) p.

(** The least number of characters a match of the pattern has. *)
Definition min_len (p : pattern) : nat := foldr (λ a n, lo a + n) 0 p.

(** The pattern matches nowhere in the text. *)
Fixpoint quiet (p : pattern) (s : text) : bool :=
  match match_at p s with
  | Some _ => false
  | None => match s with
            | [] => true
            | _ :: s' => quiet p s'
            end
  end.

(** A replacement token that no match of the pattern can reach into: its
    first and its last character are outside the pattern, and the pattern
    matches nowhere in what lies before the last character. *)
Definition sealed (p : pattern) (tok : text) : bool :=
  match tok, rev tok with
  | b0 :: _, b :: t0 => outside p b0 && outside p b && quiet p (rev t0)
  | _, _ => false
  end.

End MatcherVocabulary.

Section FilterVocabulary.
Import Re Messaging Moderation.
Context `{Runtime}.

(** The result for an empty or absent text. *)
Definition clean_result : FilterResult :=
  {| filtered_text := []; original_text := []; is_clean := true;
     violations := [] |}.

(** How a message row relates to the filter's verdict on the text that was
    handed to the filter. *)
Definition stored_from (raw : text) (r : FilterResult) (m : Message) : Prop :=
  (violations r ≠ [] →
     content m = filtered_text r ∧ is_filtered m = true
     ∧ original_content m = raw)
  ∧ (violations r = [] →
     content m = raw ∧ is_filtered m = false ∧ original_content m = [])
  ∧ (original_content m ≠ [] → is_filtered m = true).

(** The ten regex passes in the order [filter_ugc_content] runs them, each
    with the kind it reports and the token it writes. *)
Definition pii_passes : list (ViolationType * text * pattern) :=
  map (λ p, (phone_number, PHONE_TOKEN, p)) PHONE_PATTERNS
  ++ [(email, EMAIL_TOKEN, EMAIL_PATTERN)]
  ++ map (λ p, (social_media, SOCIAL_TOKEN, p)) SOCIAL_PATTERNS.

(** One of these passes on the filter's two locals. *)
Definition apply_pass (st : fstate) (x : ViolationType * text * pattern) : fstate :=
  redact x.1.1 x.1.2 st x.2.

(** The kinds reported by the regex passes. *)
Definition pii_kind (k : ViolationType) : bool :=
  match k with
  | phone_number | email | social_media => true
  | profanity | banned_word => false
  end.

(** Every token is sealed against every pattern, and no pattern matches
    the empty string. *)
Definition passes_sealed (passes : list (ViolationType * text * pattern)) : bool :=
  forallb (λ x, (1 <=? min_len x.2)%nat
                && forallb (λ y, sealed x.2 y.1.2) passes) passes.

(** The filter on a text: the state after the five passes. *)
Definition final_state (store : option (list BannedWord)) (t : text) : fstate :=
  banned_pass store
    (profanity_pass (social_pass (email_pass (phone_pass (t, []))))).

End FilterVocabulary.

Section ActivityVocabulary.
Import Accounts Activities ActivityViews.

(** The view up to the capacity check: what the request resolved to. *)
Definition resolves (user key participation_id now : Z) (db : DB)
    (activity : Activity) (p : ActivityParticipation) : Prop :=
  get_object user now key db = Some activity
  ∧ creator activity = user
  ∧ head (filter (λ p, p_activity p = pk activity ∧ p_pk p = participation_id)
            (participations db)) = Some p.

End ActivityVocabulary.

Section ChatVocabulary.
Import Accounts Messaging Moderation MessagingViews Consumers.

(** What a bulk mark-as-read by [user] on conversation [cid] does to one
    row: only [is_read] can change, and it is true afterwards exactly when
    it was true before or the row is a message of the conversation that
    the user did not send. *)
Definition read_marked (cid user : Z) (m m' : Message) : Prop :=
  msg_pk m' = msg_pk m ∧ conversation m' = conversation m
  ∧ sender m' = sender m ∧ content m' = content m
  ∧ is_filtered m' = is_filtered m
  ∧ original_content m' = original_content m
  ∧ created_at m' = created_at m
  ∧ read_at m' = read_at m
  ∧ (is_read m' = true
     ↔ is_read m = true ∨ (conversation m = cid ∧ sender m ≠ user)).

(** What [group_send] does to the consumer behind one channel. *)
Definition delivered (g : string) (e : Event) (w : World) (channel : string)
    (c : Consumer) : Consumer :=
  if bool_decide (channel ∈ members g w) && bool_decide (state c = Joined)
  then push (handle c e) c else c.

(** Channels in groups belong to consumers, and a joined consumer is in the
    group of its conversation and speaks for an authenticated user. *)
Definition well_formed (w : World) : Prop :=
  (∀ g channel, channel ∈ members g w → is_Some (consumers w !! channel))
  ∧ (∀ channel c, consumers w !! channel = Some c → state c = Joined →
       channel ∈ members (room_group_name (conversation_id c)) w
       ∧ is_authenticated (user c) = true).

(** The identity of a connection attempt is turned away: it is not an
    authenticated user, or the user is not a participant of the
    conversation at the time of the attempt. *)
Definition turned_away (u : ScopeUser) (cid : Z) (d : DB) : Prop :=
  match u with
  | authenticated row => check_participant row cid d = false
  | _ => True
  end.

(** The consumer behind [channel] is closed, has been sent nothing, and its
    channel is in no group. *)
Definition shut_out (channel : string) (w : World) : Prop :=
  (∃ c, consumers w !! channel = Some c ∧ state c = Closed ∧ sent c = [])
  ∧ ∀ g, channel ∉ members g w.

End ChatVocabulary.

Section ConnectionVocabulary.
Import Accounts Messaging Moderation MessagingViews Consumers.

(** A frame from the client that [receive] lets pass: one that is not
    JSON, one with a [type] the consumer does not know, and a chat message
    whose content is absent or made of white space. *)
Definition ignored (data : Payload) : Prop :=
  match data with
  | undecodable | other_payload => True
  | chat_message_payload content =>
    Forall (λ c, Re.is_space c = true) (default [] content)
  | _ => False
  end.

(** A channel is only in the group of its own consumer's conversation. *)
Definition one_room (w : World) : Prop :=
  ∀ g channel, channel ∈ members g w →
    ∃ c, consumers w !! channel = Some c
      ∧ g = room_group_name (conversation_id c).

(** The consumer behind [channel] is closed with [frames] as all it was
    ever sent, and its channel is in no group. *)
Definition retired (channel : string) (frames : list Frame) (w : World) : Prop :=
  (∃ c, consumers w !! channel = Some c ∧ state c = Closed ∧ sent c = frames)
  ∧ ∀ g, channel ∉ members g w.

End ConnectionVocabulary.

(** * Data of the further instances *)

Module Scenes.
Import Accounts Activities Messaging Moderation MessagingViews Consumers.
Import Examples.

(** The conversation of alice and bob after bob has written to alice. *)
Definition bob_wrote : DB :=
  (@create_message Plain.plain 1 2 (str "hello") 15 chat_db).2.

(** Bob's application for a single place on the hike. *)
Definition bob_alone : ActivityParticipation :=
  {| p_pk := 13; p_activity := 7; p_user := 2; p_status := pending;
     group_member_count := 1; responded_at := None |}.

Definition hike_db_alone : DB :=
  set_participations [bob_alone] (set_activities [hike] empty_db).

(** A token library that accepts one token, for alice. *)
Definition one_token (token_key : text) : option Z :=
  if bool_decide (token_key = str "good") then Some 1 else None.

(** Alice and bob connected to their conversation. *)
Definition both_connect : list Input :=
  [ ws_connect "alice-1" (authenticated alice) 1;
    ws_connect "bob-1" (authenticated bob) 1 ].

(** A moderator pattern with an unbalanced bracket, and a banned word. *)
Definition open_bracket : BannedWord :=
  {| word := str "("; is_regex := true; Moderation.is_active := true |}.

Definition gizlendi : BannedWord :=
  {| word := str "gizlendi"; is_regex := false; Moderation.is_active := true |}.

End Scenes.

(** * Properties *)

(** ** The content filter's result and what is stored from it *)

Section FilterResults.
Import Accounts Messaging Moderation MessagingViews Consumers.
Context `{Runtime}.

Lemma is_clean_violations store input :
  is_clean (filter_ugc_content store input)
  = bool_decide (violations (filter_ugc_content store input) = []).
Proof.
  destruct input as [[|c t]|]; simpl; [done| |done].
  apply bool_decide_ext, length_zero_iff_nil.
Qed.

(** C9. For the empty string and for [None] the filter returns the clean,
    empty result (the function is total, so nothing is raised), and for
    every input the returned [is_clean] is true exactly when the returned
    list of violations is empty. *)
Theorem filter_clean_input (store : option (list BannedWord)) :
  filter_ugc_content store None = clean_result
  ∧ filter_ugc_content store (Some []) = clean_result
  ∧ ∀ input,
      is_clean (filter_ugc_content store input) = true
      ↔ violations (filter_ugc_content store input) = [].
Proof.
  split_and!; [done..|].
  intros input. rewrite is_clean_violations. apply bool_decide_eq_true.
Qed.

Lemma create_message_stored cid user raw now d :
  let '(m, d') := create_message cid user raw now d in
  messages d' = messages d ++ [m]
  ∧ stored_from raw (filter_ugc_content (banned_words d) (Some raw)) m
  ∧ is_read m = false ∧ read_at m = None
  ∧ conversation m = cid ∧ sender m = user.
Proof.
  unfold create_message, stored_from. cbn [messages set_messages content
    is_filtered original_content is_read read_at conversation sender].
  rewrite is_clean_violations.
  split_and!; try done.
  - intros Hv. rewrite bool_decide_eq_false_2 by done. done.
  - intros Hv. rewrite bool_decide_eq_true_2 by done. done.
  - case_bool_decide; done.
Qed.

Lemma save_conversation_messages now c d :
  messages (save_conversation now c d) = messages d.
Proof. done. Qed.

Lemma send_message_stored user cid submitted now d m d' :
  send_message user cid (Some submitted) now d = (Ok 201 m, d') →
  ∃ raw, char_field 2000 false submitted = Some raw
    ∧ messages d' = messages d ++ [m]
    ∧ stored_from raw (filter_ugc_content (banned_words d) (Some raw)) m.
Proof.
  unfold send_message.
  destruct (get_conversation_of user cid d) as [conv|]; [|done].
  change (Some submitted ≫= char_field 2000 false)
    with (char_field 2000 false submitted).
  destruct (char_field 2000 false submitted) as [raw|]; [|done].
  pose proof (create_message_stored (conv_pk conv) user raw now d) as Hc.
  destruct (create_message (conv_pk conv) user raw now d) as [m1 d1].
  intros [= <- <-]. exists raw. rewrite save_conversation_messages.
  destruct Hc as (Hm & Hs & _). done.
Qed.

Lemma save_message_stored u cid raw now d md d' :
  save_message u cid raw now d = Some (md, d') →
  ∃ m, messages d' = messages d ++ [m]
    ∧ stored_from raw (filter_ugc_content (banned_words d) (Some raw)) m
    ∧ md_id md = msg_pk m ∧ md_content md = content m
    ∧ md_is_filtered md = is_filtered m.
Proof.
  unfold save_message.
  destruct (head _) as [conv|]; [|done].
  pose proof (create_message_stored (conv_pk conv) (pk u) raw now d) as Hc.
  destruct (create_message (conv_pk conv) (pk u) raw now d) as [m1 d1].
  intros [= <- <-]. exists m1. rewrite save_conversation_messages.
  destruct Hc as (Hm & Hs & _). done.
Qed.

(** C1. Every successful send, over HTTP ([send_message], answer 201) or
    over the WebSocket ([save_message] returning), appends one message whose
    [content], [is_filtered] and [original_content] follow the filter's
    verdict on the text given to the filter: the filtered text, true and the
    raw text when a violation was reported; the raw text, false and the
    empty string when none was.  So [original_content] is non-empty only
    when [is_filtered] is true. *)
Theorem stored_message_follows_filter (user cid : Z) (now : Z) (d : DB) :
  (∀ submitted m d',
     send_message user cid (Some submitted) now d = (Ok 201 m, d') →
     ∃ raw, char_field 2000 false submitted = Some raw
       ∧ messages d' = messages d ++ [m]
       ∧ stored_from raw (filter_ugc_content (banned_words d) (Some raw)) m)
  ∧ (∀ u raw md d',
     save_message u cid raw now d = Some (md, d') →
     ∃ m, messages d' = messages d ++ [m]
       ∧ stored_from raw (filter_ugc_content (banned_words d) (Some raw)) m
       ∧ md_id md = msg_pk m ∧ md_content md = content m
       ∧ md_is_filtered md = is_filtered m).
Proof.
  split.
  - intros submitted m d'. apply send_message_stored.
  - intros u raw md d'. apply save_message_stored.
Qed.

End FilterResults.

(** ** The phone-number scenario *)

Section PhoneScenario.
Import Accounts Messaging Moderation MessagingViews Consumers Examples.
Context `{Runtime}.

(** No phone, e-mail or social pattern matches anywhere in the scenario's
    message: the only pattern that allows blanks between the digit groups
    is the first one, and it needs a digit 9 in front of them. *)
Lemma phone_scenario_passes :
  social_pass (email_pass (phone_pass (phone_scenario, [])))
  = (phone_scenario, []).
Proof. vm_compute. reflexivity. Qed.

Lemma phone_scenario_filter (store : option (list BannedWord)) :
  contains_profanity phone_scenario = false →
  (∀ table, store = Some table → active_entries table = []) →
  filter_ugc_content store (Some phone_scenario)
  = {| filtered_text := phone_scenario; original_text := phone_scenario;
       is_clean := true; violations := [] |}.
Proof.
  intros Hclean Hstore.
  change (filter_ugc_content store (Some phone_scenario)) with
    (let st := banned_pass store
         (profanity_pass (social_pass (email_pass (phone_pass (phone_scenario, []))))) in
     {| filtered_text := st.1; original_text := phone_scenario;
        is_clean := bool_decide (length st.2 = 0%nat); violations := st.2 |}).
  rewrite phone_scenario_passes. unfold profanity_pass.
  cbn [fst snd]. rewrite Hclean.
  destruct store as [table|]; simpl; [|done].
  by rewrite (Hstore table).
Qed.

(** C2, the code at the scenario's input. With no active banned word and a
    profanity list that does not object to the sentence, the message
    "call me at 0532 123 45 67" sent over the WebSocket is stored as it
    was typed: [content] is the raw text and holds no redaction token,
    [is_filtered] is false and [original_content] is empty. *)
Theorem phone_scenario_stored_unredacted (u : User) (cid now : Z) (d : DB)
    (md : MessageData) (d' : DB) :
  contains_profanity phone_scenario = false →
  (∀ table, banned_words d = Some table → active_entries table = []) →
  save_message u cid phone_scenario now d = Some (md, d') →
  ∃ m, messages d' = messages d ++ [m]
    ∧ content m = phone_scenario
    ∧ contains PHONE_TOKEN (content m) = false
    ∧ is_filtered m = false
    ∧ original_content m = []
    ∧ md_content md = phone_scenario ∧ md_is_filtered md = false.
Proof.
  intros Hclean Hstore Hsave.
  destruct (save_message_stored _ _ _ _ _ _ _ Hsave) as (m & Hm & Hs & _ & Hc & Hf).
  rewrite (phone_scenario_filter _ Hclean Hstore) in Hs.
  destruct Hs as (_ & Hs & _). destruct (Hs eq_refl) as (Hc' & Hf' & Ho').
  exists m. rewrite Hc, Hf, Hc', Hf', Ho'. done.
Qed.

End PhoneScenario.

(** ** Activities: status on save, capacity on approval *)

Section ActivityStatus.
Import Activities.


Lemma auto_update_status_fields now a :
  let a' := auto_update_status now a in
  pk a' = pk a ∧ creator a' = creator a ∧ start_time a' = start_time a
  ∧ end_time a' = end_time a ∧ max_participants a' = max_participants a
  ∧ current_participants a' = current_participants a
  ∧ is_active a' = is_active a.
Proof.
  unfold auto_update_status.
  destruct (is_full a && _); [done|]. destruct (is_past now a && _); done.
Qed.


End ActivityStatus.

Section Approval.
Import Accounts Activities ActivityViews.

(** C6 as stated does not hold in its last sentence: a second approval of
    an application that is already approved is answered with 200 and
    leaves the counter where it was (4, not 4 + 1). *)
Lemma reapproval_does_not_count :
  ∃ p', respond_to_application 1 7 12 "approve" 60 Examples.hike_db_carol
        = (Ok 200 p', Examples.hike_db_carol)
      ∧ p_status p' = approved ∧ group_member_count p' = 1
      ∧ map current_participants (activities Examples.hike_db_carol) = [4].
Proof. eexists. vm_compute. split_and!; reflexivity. Qed.

Lemma approve_effect now p activity db :
  approve now p activity db
  = if bool_decide (p_status p ≠ approved)
    then (respond approved now p,
          auto_update_status now
            (set_current_participants
               (current_participants activity + group_member_count p) activity),
          set_activities
            (map (λ row, if bool_decide (pk row = pk activity)
                         then set_current_participants
                                (current_participants activity
                                 + group_member_count p) row
                         else row) (activities db))
            (set_participations
               (save_participation (respond approved now p) (participations db))
               db))
    else (p, activity, db).
Proof.
  unfold approve. case_bool_decide; [|done].
  cbn [save]. f_equal. f_equal. unfold update_row.
  apply map_ext. intros row.
  pose proof (auto_update_status_fields now
    (set_current_participants
       (current_participants activity + group_member_count p) activity)) as Hf.
  cbn zeta in Hf. destruct Hf as (Hpk & _ & _ & _ & _ & Hcur & _).
  rewrite Hpk. cbn [set_current_participants Activities.pk].
  case_bool_decide; [|done].
  unfold written_row. rewrite Hcur.
  destruct row; cbn. f_equal.
Qed.

(** C6, amended. An approval is refused with 400 and changes nothing when
    the activity has fewer places left than the application's
    [group_member_count]; the activity with five places and four taken
    refuses the group of two.  An approval that is answered with 200 adds
    exactly [group_member_count] to [current_participants] of the activity
    when the application was not approved before, and leaves the store as
    it was when the application was approved already. *)
Theorem approval_respects_capacity (user key participation_id now : Z)
    (db : DB) (activity : Activity) (p : ActivityParticipation) :
  resolves user key participation_id now db activity p →
  let answer :=
    respond_to_application user key participation_id "approve" now db in
  (spots_left activity < group_member_count p → answer = (Err 400, db))
  ∧ respond_to_application 1 7 11 "approve" 60 Examples.hike_db
    = (Err 400, Examples.hike_db)
  ∧ (∀ p' db', answer = (Ok 200 p', db') →
       group_member_count p ≤ spots_left activity
       ∧ if bool_decide (p_status p = approved) then db' = db
         else p_status p' = approved
           ∧ activities db'
             = map (λ row, if bool_decide (pk row = pk activity)
                           then set_current_participants
                                  (current_participants activity
                                   + group_member_count p) row
                           else row) (activities db)).
Proof.
  intros (Hobj & Hcreator & Hp). cbn zeta.
  assert (respond_to_application user key participation_id "approve" now db
          = if bool_decide (spots_left activity < group_member_count p)
            then (Err 400, db)
            else let '(p', _, db') := approve now p activity db in
                 (Ok 200 p', db')) as ->.
  { unfold respond_to_application. rewrite Hobj.
    rewrite bool_decide_eq_false_2 by (by intros ?).
    rewrite Hp. done. }
  split_and!.
  - intros Hlt. by rewrite bool_decide_eq_true_2.
  - vm_compute. reflexivity.
  - intros p' db'. case_bool_decide as Hlt; [done|].
    rewrite approve_effect.
    destruct (decide (p_status p = approved)) as [Hs|Hs].
    + rewrite bool_decide_eq_false_2 by (by intros ?).
      rewrite (bool_decide_eq_true_2 _ Hs). intros [= <- <-]. split; [lia|done].
    + rewrite (bool_decide_eq_true_2 _ Hs), (bool_decide_eq_false_2 _ Hs).
      intros [= <- <-]. split; [lia|done].
Qed.

(** The instance at the specification's scenario. *)
Lemma approval_respects_capacity_witness :
  resolves 1 7 11 60 Examples.hike_db Examples.hike Examples.bobs_application
  ∧ respond_to_application 1 7 11 "approve" 60 Examples.hike_db
    = (Err 400, Examples.hike_db).
Proof.
  assert (resolves 1 7 11 60 Examples.hike_db Examples.hike
            Examples.bobs_application) as Hr.
  { vm_compute. split_and!; reflexivity. }
  split; [exact Hr|].
  destruct (approval_respects_capacity 1 7 11 60 _ _ _ Hr) as [Hrefused _].
  apply Hrefused. vm_compute. reflexivity.
Defined.

End Approval.

(** ** Bulk mark-as-read *)

Section MarkRead.
Import Accounts Messaging Moderation MessagingViews Consumers.
Context `{Runtime}.

Lemma update_is_read_marked cid user table :
  Forall2 (read_marked cid user) table (update_is_read cid user table).
Proof.
  unfold update_is_read. apply Forall2_fmap_r, Forall_Forall2_diag, Forall_forall.
  intros m _. unfold read_marked, unread_from_others.
  destruct m as [k c s t f o r ra ca]; cbn.
  destruct (decide (c = cid)) as [->|Hc], (decide (s = user)) as [->|Hs], r;
    rewrite ?bool_decide_eq_true_2, ?bool_decide_eq_false_2 by done; cbn;
    split_and!; try done; intuition congruence.
Qed.

Lemma get_conversation_of_pk user cid d c :
  get_conversation_of user cid d = Some c →
  conv_pk c = cid ∧ user ∈ participants c.
Proof.
  intros Hc%head_Some_elem_of. by apply list_elem_of_filter in Hc as [? _].
Qed.

Lemma head_filter_pk cid (l : list Conversation) c :
  head (filter (λ c, conv_pk c = cid) l) = Some c → conv_pk c = cid.
Proof.
  intros Hc%head_Some_elem_of. by apply list_elem_of_filter in Hc as [? _].
Qed.

(** C10. Each of the three bulk mark-as-read paths (conversation detail
    over HTTP, the mark-read endpoint, the WebSocket [read] event) rewrites
    the message table row by row so that only [is_read] changes, becoming
    true exactly on the conversation's messages that the requesting user
    did not send; [read_at] keeps its value, so it stays null.  The per-row
    method [mark_as_read] is the one that sets [read_at], and the message
    writers create rows with [read_at] null. *)
Theorem bulk_mark_read_sets_only_is_read (user cid : Z) (d : DB) :
  (∀ body d', retrieve user cid d = (Ok 200 body, d') →
     Forall2 (read_marked cid user) (messages d) (messages d'))
  ∧ (∀ n d', mark_messages_read user cid d = (Ok 200 n, d') →
     Forall2 (read_marked cid user) (messages d) (messages d')
     ∧ n = length (filter (λ m, conversation m = cid ∧ is_read m = false
                                ∧ sender m ≠ user) (messages d)))
  ∧ (∀ u d', ws_mark_messages_read u cid d = Some d' →
     Forall2 (read_marked cid (pk u)) (messages d) (messages d'))
  ∧ (∀ m m', Forall2 (read_marked cid user) [m] [m'] →
     read_at m = None → read_at m' = None)
  ∧ (∀ now m, is_read m = false →
     read_at (mark_as_read now m) = Some now
     ∧ is_read (mark_as_read now m) = true)
  ∧ (∀ raw now, read_at (create_message cid user raw now d).1 = None).
Proof.
  split_and!.
  - intros body d'. unfold retrieve.
    destruct (head _) as [c|] eqn:Hc; [|done].
    apply head_filter_pk in Hc as ->. intros [= _ <-].
    apply update_is_read_marked.
  - intros n d'. unfold mark_messages_read.
    destruct (get_conversation_of user cid d) as [c|] eqn:Hc; [|done].
    apply get_conversation_of_pk in Hc as [-> _]. intros [= <- <-].
    split; [apply update_is_read_marked|].
    unfold count_unread, unread_from_others. f_equal.
    apply list_filter_iff. intros m.
    rewrite !andb_true_iff, !negb_true_iff, !bool_decide_eq_true,
      bool_decide_eq_false. tauto.
  - intros u d'. unfold ws_mark_messages_read.
    destruct (head _) as [c|] eqn:Hc; [|done].
    apply head_filter_pk in Hc as ->. intros [= <-].
    apply update_is_read_marked.
  - intros m m' Hm Hnull. apply Forall2_cons_1 in Hm as [Hm _].
    destruct Hm as (_ & _ & _ & _ & _ & _ & _ & -> & _). done.
  - intros now m Hr. unfold mark_as_read. rewrite Hr. done.
  - done.
Qed.

End MarkRead.

(** ** Direct conversations are looked up before they are created *)

Section CreateConversation.
Import Accounts Messaging Moderation MessagingViews Examples.
Context `{Runtime}.

(** The block check comes before the lookup: alice and bob have a direct
    conversation of exactly the two of them, alice has blocked bob, and
    her request to talk to bob is refused with 400. *)
Lemma blocked_partner_is_refused :
  chat_1_2 ∈ conversations blocked_db
  ∧ conversation_type chat_1_2 = direct
  ∧ participants chat_1_2 = {[ 1; 2 ]}
  ∧ @create_conversation Plain.plain 1 (ask_for 2) 20 blocked_db
    = (Err 400, blocked_db).
Proof.
  split_and!; [by apply list_elem_of_here|done|done|].
  vm_compute. reflexivity.
Qed.

Lemma first_latest_elem_of l c : first_latest l = Some c → c ∈ l.
Proof.
  revert c. induction l as [|x l IH]; intros c; [done|].
  cbn. destruct (first_latest l) as [y|].
  - case_bool_decide; intros [= <-].
    + right. by apply IH.
    + left.
  - intros [= <-]. left.
Qed.

Lemma first_latest_is_Some l : l ≠ [] → is_Some (first_latest l).
Proof.
  destruct l as [|x l]; [done|]. intros _. cbn.
  destruct (first_latest l); [case_bool_decide|]; eauto.
Qed.

Lemma next_pk_fresh (pks : list Z) : next_pk pks ∉ pks.
Proof.
  assert (∀ k, k ∈ pks → k < next_pk pks) as Hlt.
  { unfold next_pk. induction pks as [|x l IH]; intros k Hk.
    - by apply elem_of_nil in Hk.
    - cbn. apply elem_of_cons in Hk as [->|Hk]; [lia|].
      specialize (IH k Hk). lia. }
  intros Hin. specialize (Hlt _ Hin). lia.
Qed.

Lemma pair_of_size_two (X : gset Z) (a b : Z) :
  a ∈ X → b ∈ X → a ≠ b → size X = 2%nat → X = {[ a; b ]}.
Proof.
  intros Ha Hb Hab Hsize. symmetry. apply set_subseteq_size_eq.
  - intros x [->%elem_of_singleton | ->%elem_of_singleton]%elem_of_union; done.
  - rewrite Hsize, size_union, !size_singleton; [done|].
    by apply disjoint_singleton_l, not_elem_of_singleton.
Qed.

Lemma create_message_conversations cid user raw now d :
  conversations (create_message cid user raw now d).2 = conversations d.
Proof. done. Qed.

(** [.first()] gives a row that no other row of the queryset is more
    recent than. *)
Lemma first_latest_max l c :
  first_latest l = Some c →
  ∀ x, x ∈ l → last_message_at x ≤ last_message_at c.
Proof.
  revert c. induction l as [|y l IH]; intros c Hc x Hx.
  { by apply elem_of_nil in Hx. }
  cbn [first_latest] in Hc.
  destruct (first_latest l) as [d|] eqn:Hd.
  - specialize (IH d eq_refl).
    case_bool_decide as Hlt; injection Hc as <-;
      apply elem_of_cons in Hx as [->|Hx]; try lia.
    + by apply IH.
    + specialize (IH x Hx). lia.
  - injection Hc as <-. apply elem_of_cons in Hx as [->|Hx]; [lia|].
    destruct (first_latest_is_Some l) as [? ?]; [|congruence].
    intros ->. by apply elem_of_nil in Hx.
Qed.

(** C5. The lookup before the creation does not deduplicate.  The view
    takes the most recent direct conversation that contains both users
    and returns it only if it has exactly two participants; it does not
    look for one that has.  So when [user] and [partner] have a direct
    conversation [old] of exactly the two of them, and a direct
    conversation [newer] with further participants that contains both is
    more recent than every two-party one, a request by [user] for
    [partner] (one id, no activity, no block between them, the partner an
    active user) is answered with 201: a second direct conversation with
    exactly the participants of [old] is created, under another key, and
    [old] is still stored. *)
Theorem duplicate_direct_conversation_created (user partner now : Z) (d : DB)
    (initial : option text) (checked : text) (old newer : Conversation) :
  let request :=
    {| participant_ids := [partner]; data_activity_id := None;
       initial_message := initial |} in
  validate_create request = Some checked →
  partner ∉ blocked_flat user d →
  user ≠ partner →
  (∃ u, (u ∈ users d) ∧ pk u = partner ∧ Accounts.is_active u = true) →
  old ∈ direct_with user partner d →
  size (participants old) = 2%nat →
  newer ∈ direct_with user partner d →
  Forall (λ c, size (participants c) = 2%nat →
               last_message_at c < last_message_at newer)
    (direct_with user partner d) →
  ∃ c d', create_conversation user request now d = (Ok 201 c, d')
    ∧ conversations d' = conversations d ++ [c]
    ∧ conversation_type c = direct
    ∧ participants c = {[ user; partner ]}
    ∧ conversation_type old = direct
    ∧ participants old = {[ user; partner ]}
    ∧ old ∈ conversations d'
    ∧ conv_pk c ≠ conv_pk old.
Proof.
  intros request Hvalid Hblocked Hne (u & Hu & Hpk & Hactive) Hold Hsize
    Hnewer Hrecent.
  assert (bool_decide (Exists (λ pid, pid ∈ blocked_flat user d) [partner])
          = false) as Hcheck.
  { apply bool_decide_eq_false_2. intros Hex.
    apply Exists_cons in Hex as [Hex|Hex]; [done|].
    by apply Exists_nil in Hex. }
  assert (match first_latest (direct_with user partner d) with
          | Some c =>
            if bool_decide (size (participants c) = 2%nat)
            then Some c else None
          | None => None
          end = None) as Hfound.
  { destruct (first_latest (direct_with user partner d)) as [c|] eqn:Hc;
      [|done].
    pose proof (first_latest_max _ _ Hc newer Hnewer) as Hmax.
    apply first_latest_elem_of in Hc.
    pose proof (proj1 (Forall_forall _ _) Hrecent c Hc) as Hlater.
    rewrite bool_decide_eq_false_2; [done|].
    intros Htwo. specialize (Hlater Htwo). lia. }
  set (added := filter (λ u, pk u ∈ [partner] ∧ Accounts.is_active u = true)
                  (users d)).
  assert ({[ user ]} ∪ list_to_set (map pk added) = ({[ user; partner ]} : gset Z))
    as Hset.
  { apply set_eq. intros x.
    rewrite !elem_of_union, !elem_of_singleton, elem_of_list_to_set.
    split; (intros [->|Hx]; [by left|right]).
    - apply list_elem_of_fmap in Hx as (v & -> & Hv).
      apply list_elem_of_filter in Hv as ((Hv & _) & _).
      by apply list_elem_of_singleton in Hv.
    - subst x. apply list_elem_of_fmap. exists u. split; [done|].
      apply list_elem_of_filter. split_and!; try done.
      rewrite Hpk. by apply list_elem_of_singleton. }
  apply list_elem_of_filter in Hold as ((Hou & Hodirect & Hop) & Hostored).
  assert (∀ d', conversations d'
                = conversations d
                  ++ [ {| conv_pk := next_pk (map conv_pk (conversations d));
                          activity_id := None;
                          participants := {[ user ]} ∪ list_to_set (map pk added);
                          conversation_type := direct;
                          conv_created_at := now;
                          last_message_at := now |} ] →
               old ∈ conversations d') as Hkept.
  { intros d' ->. apply elem_of_app. by left. }
  eexists _, _. split_and!.
  - unfold create_conversation. rewrite Hvalid.
    cbn [participant_ids data_activity_id request]. rewrite Hcheck.
    cbn [truthy negb]. rewrite Hfound.
    cbn [fk_holds]. reflexivity.
  - destruct checked; done.
  - done.
  - exact Hset.
  - done.
  - by apply pair_of_size_two.
  - apply Hkept. destruct checked; done.
  - cbn [conv_pk]. intros Heq.
    apply (next_pk_fresh (map conv_pk (conversations d))). rewrite Heq.
    by apply (list_elem_of_fmap_2 conv_pk).
Qed.

End CreateConversation.

(** ** The chat channel *)

Section ChatChannel.
Import Accounts Messaging Moderation MessagingViews Consumers.
Context `{Runtime}.

Lemma members_group_add g g' channel w :
  members g (group_add g' channel w)
  = if decide (g' = g) then {[ channel ]} ∪ members g w else members g w.
Proof.
  unfold members, group_add. cbn. rewrite lookup_insert.
  destruct (decide (g' = g)) as [->|]; done.
Qed.

Lemma members_group_discard g g' channel w :
  members g (group_discard g' channel w)
  = if decide (g' = g) then members g w ∖ {[ channel ]} else members g w.
Proof.
  unfold members, group_discard. cbn. rewrite lookup_alter.
  destruct (decide (g' = g)) as [->|]; [|done].
  destruct (groups w !! g); cbn; [done|].
  apply set_eq. intros x. rewrite elem_of_difference.
  split; [intros []%elem_of_empty | intros [[]%elem_of_empty _]].
Qed.

Lemma members_group_send g g' e w : members g (group_send g' e w) = members g w.
Proof. done. Qed.

Lemma group_send_lookup g e w channel :
  consumers (group_send g e w) !! channel
  = delivered g e w channel <$> consumers w !! channel.
Proof.
  unfold group_send. cbn. rewrite map_lookup_imap.
  destruct (consumers w !! channel); done.
Qed.

Lemma delivered_state g e w channel c :
  state (delivered g e w channel c) = state c
  ∧ conversation_id (delivered g e w channel c) = conversation_id c
  ∧ user (delivered g e w channel c) = user c.
Proof. unfold delivered. destruct (_ && _); done. Qed.

(** A closed consumer is passed over. *)
Lemma delivered_closed g e w channel c :
  state c = Closed → delivered g e w channel c = c.
Proof.
  intros Hc. unfold delivered. rewrite Hc.
  rewrite (bool_decide_eq_false_2 (Closed = Joined)) by done.
  by rewrite andb_false_r.
Qed.

Lemma well_formed_start d : well_formed (start d).
Proof.
  split.
  - intros g channel. unfold members. cbn. rewrite lookup_empty. cbn.
    intros []%elem_of_empty.
  - intros channel c. cbn. by rewrite lookup_empty.
Qed.

Lemma well_formed_set_db d w : well_formed w → well_formed (set_db d w).
Proof. done. Qed.

Lemma well_formed_group_send g e w :
  well_formed w → well_formed (group_send g e w).
Proof.
  intros [Hg Hj]. split.
  - intros g' channel Hin. rewrite group_send_lookup.
    apply fmap_is_Some. by apply (Hg g').
  - intros channel c. rewrite group_send_lookup.
    destruct (consumers w !! channel) as [c0|] eqn:Hc0; [|done].
    cbn. intros [= <-].
    destruct (delivered_state g e w channel c0) as (-> & -> & ->).
    by apply Hj.
Qed.

Lemma well_formed_closed channel c w :
  well_formed w → consumers w !! channel = Some c →
  well_formed (set_consumers (<[ channel := set_state Closed c ]> (consumers w)) w).
Proof.
  intros [Hg Hj] Hc. split.
  - intros g ch Hin. cbn. rewrite lookup_insert.
    destruct (decide (channel = ch)); [done|]. by apply (Hg g).
  - intros ch c'. cbn. rewrite lookup_insert.
    destruct (decide (channel = ch)); [by intros [= <-]|]. by apply Hj.
Qed.

Lemma well_formed_step w i : well_formed w → well_formed (step w i).
Proof.
  intros Hw. destruct i as [channel u cid | channel data now | channel | f];
    cbn [step].
  - destruct (consumers w !! channel) eqn:Hnone; [done|].
    destruct Hw as [Hg Hj].
    assert (well_formed
              (set_consumers (<[ channel := Build_Consumer u cid Closed [] ]>
                                (consumers w)) w)) as Hrefused.
    { split.
      - intros g ch Hin. cbn. rewrite lookup_insert.
        destruct (decide (channel = ch)); [done|]. by apply (Hg g).
      - intros ch c'. cbn. rewrite lookup_insert.
        destruct (decide (channel = ch)); [by intros [= <-]|]. by apply Hj. }
    unfold connect. destruct u as [| |row]; try done.
    destruct (check_participant row cid (db w)); [|done].
    split.
    + intros g ch. cbn [consumers set_consumers]. rewrite lookup_insert.
      destruct (decide (channel = ch)); [done|].
      change (members g (set_consumers _ ?w')) with (members g w').
      rewrite members_group_add. destruct (decide _); [|by apply Hg].
      intros [Hch%elem_of_singleton|Hin]%elem_of_union; [done|by apply (Hg g)].
    + intros ch c'. cbn [consumers set_consumers]. rewrite lookup_insert.
      change (members ?g (set_consumers _ ?w')) with (members g w').
      rewrite members_group_add.
      destruct (decide (channel = ch)) as [->|Hne].
      * intros [= <-] _. cbn. rewrite decide_True by done.
        split; [|done]. apply elem_of_union_l. by apply elem_of_singleton.
      * intros Hc' Hjoined. destruct (Hj _ _ Hc' Hjoined) as [Hin Hauth].
        split; [|done]. destruct (decide _); [|done].
        by apply elem_of_union_r.
  - destruct (consumers w !! channel) as [c|] eqn:Hc; [|done].
    destruct (state c) eqn:Hs; [|done].
    destruct (user c) as [| |u] eqn:Hu; try done.
    unfold receive. destruct data as [|content|typing| |]; try done.
    + destruct (strip _); [done|].
      destruct (save_message _ _ _ _ _) as [[md d]|].
      * by apply well_formed_group_send, well_formed_set_db.
      * by apply well_formed_closed.
    + by apply well_formed_group_send.
    + destruct (ws_mark_messages_read _ _ _) as [d|].
      * by apply well_formed_group_send, well_formed_set_db.
      * by apply well_formed_closed.
  - destruct (consumers w !! channel) as [c|] eqn:Hc; [|done].
    destruct Hw as [Hg Hj]. unfold disconnect. split.
    + intros g ch. cbn [consumers set_consumers]. rewrite lookup_insert.
      destruct (decide (channel = ch)); [done|].
      change (members g (set_consumers _ ?w')) with (members g w').
      rewrite members_group_discard. destruct (decide _); [|by apply Hg].
      intros [Hin _]%elem_of_difference. by apply (Hg g).
    + intros ch c'. cbn [consumers set_consumers]. rewrite lookup_insert.
      change (members ?g (set_consumers _ ?w')) with (members g w').
      rewrite members_group_discard.
      destruct (decide (channel = ch)) as [->|Hne]; [by intros [= <-]|].
      intros Hc' Hjoined. destruct (Hj _ _ Hc' Hjoined) as [Hin Hauth].
      split; [|done]. destruct (decide _); [|done].
      apply elem_of_difference. split; [done|].
      intros ->%elem_of_singleton. done.
  - by apply well_formed_set_db.
Qed.

Lemma well_formed_run inputs w : well_formed w → well_formed (run w inputs).
Proof.
  revert w. induction inputs as [|i inputs IH]; intros w Hw; [done|].
  cbn. apply IH. by apply well_formed_step.
Qed.

Lemma shut_out_connect channel u cid w :
  well_formed w → consumers w !! channel = None →
  turned_away u cid (db w) →
  shut_out channel (connect channel u cid w).
Proof.
  intros [Hg _] Hnew Haway.
  assert (connect channel u cid w
          = set_consumers (<[ channel := Build_Consumer u cid Closed [] ]>
                             (consumers w)) w) as ->.
  { unfold connect. destruct u as [| |row]; try done.
    cbn in Haway. by rewrite Haway. }
  split.
  - eexists. cbn. by rewrite lookup_insert_eq.
  - intros g Hin. destruct (Hg g channel Hin) as [c Hc]. congruence.
Qed.

Lemma shut_out_group_send channel g e w :
  shut_out channel w → shut_out channel (group_send g e w).
Proof.
  intros [(c & Hc & Hs & Hsent) Hg]. split; [|done].
  exists c. rewrite group_send_lookup, Hc. cbn.
  by rewrite delivered_closed.
Qed.

Lemma shut_out_other channel ch c' w :
  ch ≠ channel → shut_out channel w →
  shut_out channel (set_consumers (<[ ch := c' ]> (consumers w)) w).
Proof.
  intros Hne [(c & Hc & Hs & Hsent) Hg]. split; [|done].
  exists c. cbn. by rewrite lookup_insert_ne.
Qed.

Lemma shut_out_step channel w i :
  shut_out channel w → shut_out channel (step w i).
Proof.
  intros Hout. pose proof Hout as [(c & Hc & Hs & Hsent) Hg].
  destruct i as [ch u cid | ch data now | ch | f]; cbn [step].
  - destruct (consumers w !! ch) eqn:Hch; [done|].
    assert (ch ≠ channel) as Hne by congruence.
    unfold connect. destruct u as [| |row]; try by apply shut_out_other.
    destruct (check_participant row cid (db w)); [|by apply shut_out_other].
    apply shut_out_other; [done|]. split; [by exists c|].
    intros g. rewrite members_group_add. destruct (decide _); [|done].
    intros [Hin%elem_of_singleton|Hin]%elem_of_union; [done|by apply (Hg g)].
  - destruct (consumers w !! ch) as [c'|] eqn:Hch; [|done].
    destruct (state c') eqn:Hs'; [|done].
    assert (ch ≠ channel) as Hne by congruence.
    destruct (user c') as [| |u]; try done.
    unfold receive. destruct data as [|content|typing| |]; try done.
    + destruct (strip _); [done|].
      destruct (save_message _ _ _ _ _) as [[md d]|].
      * by apply shut_out_group_send.
      * by apply shut_out_other.
    + by apply shut_out_group_send.
    + destruct (ws_mark_messages_read _ _ _) as [d|].
      * by apply shut_out_group_send.
      * by apply shut_out_other.
  - destruct (consumers w !! ch) as [c'|] eqn:Hch; [|done].
    unfold disconnect. split.
    + cbn [consumers set_consumers group_discard set_groups].
      destruct (decide (ch = channel)) as [->|Hne].
      * rewrite lookup_insert_eq. exists (set_state Closed c').
        assert (c' = c) as -> by congruence. done.
      * rewrite lookup_insert_ne by done. by exists c.
    + intros g.
      change (members g (set_consumers _ ?w')) with (members g w').
      rewrite members_group_discard. destruct (decide _); [|done].
      intros [Hin _]%elem_of_difference. by apply (Hg g).
  - done.
Qed.

Lemma shut_out_run channel inputs w :
  shut_out channel w → shut_out channel (run w inputs).
Proof.
  revert w. induction inputs as [|i inputs IH]; intros w Hw; [done|].
  cbn. apply IH. by apply shut_out_step.
Qed.

(** C4. A connection attempt on a new channel whose identity is anonymous
    or missing, or is a user who is not a participant of the conversation,
    is closed, and whatever happens afterwards it stays closed: its channel
    is in no broadcast group and nothing is ever delivered to it. *)
Theorem refused_connection_never_joins (d0 : DB) (before after : list Input)
    (channel : string) (u : ScopeUser) (cid : Z) :
  let w0 := run (start d0) before in
  consumers w0 !! channel = None →
  turned_away u cid (db w0) →
  let w := run w0 (ws_connect channel u cid :: after) in
  (∃ c, consumers w !! channel = Some c ∧ state c = Closed ∧ sent c = [])
  ∧ ∀ g, channel ∉ members g w.
Proof.
  intros w0 Hnew Haway w. subst w. cbn [run foldl].
  apply shut_out_run. cbn [step]. rewrite Hnew.
  apply shut_out_connect; [|done..].
  apply well_formed_run, well_formed_start.
Qed.

(** The frames one event adds to the consumer behind a channel of the
    room, by cases. *)
Lemma delivered_sent g e w channel c :
  sent (delivered g e w channel c)
  = sent c ++ if bool_decide (channel ∈ members g w ∧ state c = Joined)
              then handle c e else [].
Proof.
  unfold delivered.
  destruct (decide (channel ∈ members g w ∧ state c = Joined)) as [[Hin Hs]|Hn].
  - rewrite !bool_decide_eq_true_2 by done. done.
  - rewrite (bool_decide_eq_false_2 _ Hn).
    assert (bool_decide (channel ∈ members g w) && bool_decide (state c = Joined)
            = false) as ->; [|by rewrite app_nil_r].
    apply andb_false_iff. rewrite !bool_decide_eq_false.
    destruct (decide (channel ∈ members g w)); [right|by left].
    intros Hs. by apply Hn.
Qed.

(** C8. In a running chat system, take a joined consumer of user [u].
    Its own channel is in the room of its conversation.  When it reports
    typing, every joined consumer of the room whose user is another one is
    sent one typing frame carrying [u]'s id and name ([display_name], or
    the part of the e-mail address before the at sign when that is blank),
    and every consumer of the same user, the reporting one included, is
    sent nothing.  When it sends a chat message that is stored, every
    joined consumer of the room, the sending one included, is sent the
    stored message. *)
Theorem typing_skips_sender_chat_reaches_all (d0 : DB) (inputs : list Input)
    (channel : string) (c : Consumer) (u : User) (now : Z) :
  let w := run (start d0) inputs in
  consumers w !! channel = Some c → state c = Joined →
  user c = authenticated u →
  let room := room_group_name (conversation_id c) in
  channel ∈ members room w
  ∧ (display_name u ≠ [] → get_short_name u = display_name u)
  ∧ (∀ is_typing,
       let w' := step w (ws_receive channel (typing_payload is_typing) now) in
       let frame :=
         frame_typing (pk u) (get_short_name u) (default false is_typing) in
       (∀ ch c', consumers w !! ch = Some c' →
          ∃ c'', consumers w' !! ch = Some c''
            ∧ sent c'' = sent c' ++
                if bool_decide (ch ∈ members room w ∧ state c' = Joined
                                ∧ scope_user_id (user c') ≠ Some (pk u))
                then [frame] else [])
       ∧ ∃ c'', consumers w' !! channel = Some c'' ∧ sent c'' = sent c)
  ∧ (∀ content md d',
       strip content ≠ [] →
       save_message u (conversation_id c) (strip content) now (db w)
       = Some (md, d') →
       let w' :=
         step w (ws_receive channel (chat_message_payload (Some content)) now) in
       (∀ ch c', consumers w !! ch = Some c' →
          ∃ c'', consumers w' !! ch = Some c''
            ∧ sent c'' = sent c' ++
                if bool_decide (ch ∈ members room w ∧ state c' = Joined)
                then [frame_chat_message md] else [])
       ∧ ∃ c'', consumers w' !! channel = Some c''
           ∧ sent c'' = sent c ++ [frame_chat_message md]).
Proof.
  intros w Hc Hjoined Hu room.
  assert (well_formed w) as [_ Hj] by apply well_formed_run, well_formed_start.
  destruct (Hj _ _ Hc Hjoined) as [Hin _]. fold room in Hin.
  split; [done|]. split.
  { unfold get_short_name. by destruct (display_name u). }
  split.
  - intros is_typing w' frame.
    assert (∀ ch c', consumers w !! ch = Some c' →
              ∃ c'', consumers w' !! ch = Some c''
                ∧ sent c'' = sent c' ++
                    if bool_decide (ch ∈ members room w ∧ state c' = Joined
                                    ∧ scope_user_id (user c') ≠ Some (pk u))
                    then [frame] else []) as Hall.
    { intros ch c' Hc'. subst w'. cbn [step]. rewrite Hc, Hjoined, Hu.
      cbn [receive]. rewrite group_send_lookup, Hc'. cbn.
      eexists. split; [done|]. rewrite delivered_sent. f_equal.
      fold room. cbn [handle].
      destruct (decide (scope_user_id (user c') = Some (pk u))) as [He|He].
      - rewrite (bool_decide_eq_false_2 (Some (pk u) ≠ _)) by (by intros []).
        rewrite (bool_decide_eq_false_2 (_ ∧ _ ∧ _)) by (by intros (_ & _ & [])).
        by destruct (bool_decide _).
      - rewrite (bool_decide_eq_true_2 (Some (pk u) ≠ _)) by (by intros ?).
        erewrite bool_decide_ext; [done|]. tauto. }
    split; [exact Hall|].
    destruct (Hall _ _ Hc) as (c'' & Hc'' & Hsent). exists c''. split; [done|].
    rewrite Hsent, Hu. cbn.
    rewrite bool_decide_eq_false_2 by (by intros (_ & _ & [])).
    by rewrite app_nil_r.
  - intros content md d' Hcontent Hsaved w'.
    assert (∀ ch c', consumers w !! ch = Some c' →
              ∃ c'', consumers w' !! ch = Some c''
                ∧ sent c'' = sent c' ++
                    if bool_decide (ch ∈ members room w ∧ state c' = Joined)
                    then [frame_chat_message md] else []) as Hall.
    { intros ch c' Hc'. subst w'. cbn [step]. rewrite Hc, Hjoined, Hu.
      cbn [receive default]. change (id content) with content.
      destruct (strip content) as [|x rest] eqn:Hstrip; [done|].
      rewrite Hsaved, group_send_lookup. cbn. rewrite Hc'. cbn.
      eexists. split; [done|]. by rewrite delivered_sent. }
    split; [exact Hall|].
    destruct (Hall _ _ Hc) as (c'' & Hc'' & Hsent). exists c''. split; [done|].
    rewrite Hsent. by rewrite bool_decide_eq_true_2.
Qed.

End ChatChannel.

(** ** The matcher *)

Section Matcher.
Import Re.
Local Open Scope nat_scope.

Lemma run_le_length c limit s : run c limit s ≤ length s.
Proof.
  revert limit. induction s as [|x s IH]; intros limit.
  - destruct limit as [[|n]|]; cbn; lia.
  - destruct limit as [[|n]|]; cbn; [lia | |]; destruct (c x); cbn; try lia.
    + specialize (IH (Some n)). lia.
    + specialize (IH None). lia.
Qed.

(** A character outside the class stops the run like the end of the text. *)
Lemma run_app_outside c limit u b rest :
  c b = false → run c limit (u ++ b :: rest) = run c limit u.
Proof.
  intros Hb. revert limit. induction u as [|x u IH]; intros limit.
  - destruct limit as [[|n]|]; cbn; by rewrite ?Hb.
  - destruct limit as [[|n]|]; cbn; [done| |]; destruct (c x); cbn;
      by rewrite ?IH.
Qed.

Lemma run_app_le c limit s x : run c limit s ≤ run c limit (s ++ x).
Proof.
  revert limit. induction s as [|y s IH]; intros limit.
  - destruct limit as [[|n]|]; cbn; lia.
  - destruct limit as [[|n]|]; cbn; [lia | |]; destruct (c y); cbn; try lia.
    + specialize (IH (Some n)). cbn in IH. lia.
    + specialize (IH None). cbn in IH. lia.
Qed.

Lemma try_down_None k low n :
  try_down k low n = None ↔ ∀ m, low ≤ m ≤ n → k m = None.
Proof.
  induction n as [|n IH]; cbn [try_down].
  - destruct (Nat.ltb_spec 0 low) as [Hlt|Hge].
    + split; [|done]. intros _ m Hm. lia.
    + destruct (k 0) eqn:Hk.
      * split; [done|]. intros Hall. rewrite Hall in Hk by lia. done.
      * split; [|done]. intros _ m Hm. by replace m with 0 by lia.
  - destruct (Nat.ltb_spec (S n) low) as [Hlt|Hge].
    + split; [|done]. intros _ m Hm. lia.
    + destruct (k (S n)) eqn:Hk.
      * split; [done|]. intros Hall. rewrite Hall in Hk by lia. done.
      * rewrite IH. split; intros Hall m Hm.
        -- destruct (decide (m = S n)) as [->|]; [done|]. apply Hall. lia.
        -- apply Hall. lia.
Qed.

Lemma try_down_Some k low n r :
  try_down k low n = Some r → ∃ m r', low ≤ m ≤ n ∧ k m = Some r' ∧ r = m + r'.
Proof.
  induction n as [|n IH]; cbn [try_down].
  - destruct (Nat.ltb_spec 0 low) as [Hlt|Hge]; [done|].
    destruct (k 0) as [r'|] eqn:Hk; [|done].
    intros [= <-]. exists 0, r'. split_and!; try done; lia.
  - destruct (Nat.ltb_spec (S n) low) as [Hlt|Hge]; [done|].
    destruct (k (S n)) as [r'|] eqn:Hk.
    + intros [= <-]. exists (S n), r'. split_and!; try done; lia.
    + intros (m & r' & Hm & Hkm & ->)%IH. exists m, r'. split_and!; try done; lia.
Qed.

Lemma try_down_ext k k' low n :
  (∀ m, m ≤ n → k m = k' m) → try_down k low n = try_down k' low n.
Proof.
  induction n as [|n IH]; intros Heq; cbn [try_down].
  - by rewrite (Heq 0).
  - rewrite (Heq (S n)) by done. rewrite IH; [done|]. intros m Hm. apply Heq. lia.
Qed.

(** A character outside the pattern ends every attempt, so what follows it
    does not matter. *)
Lemma match_at_outside p u b rest :
  outside p b = true → match_at p (u ++ b :: rest) = match_at p u.
Proof.
  revert u. induction p as [|a p IH]; intros u Hout; [done|].
  cbn in Hout. apply andb_true_iff in Hout as [Ha Hp].
  apply negb_true_iff in Ha. cbn [match_at].
  rewrite run_app_outside by done. apply try_down_ext. intros m Hm.
  pose proof (run_le_length (cls a) (hi a) u).
  rewrite drop_app_le by lia. by apply IH.
Qed.

(** A text that continues can only help a match. *)
Lemma match_at_app_None p s x : match_at p (s ++ x) = None → match_at p s = None.
Proof.
  revert s. induction p as [|a p IH]; intros s; [done|].
  cbn [match_at]. rewrite !try_down_None. intros Hall m Hm.
  pose proof (run_le_length (cls a) (hi a) s).
  pose proof (run_app_le (cls a) (hi a) s x).
  apply IH. rewrite <- drop_app_le by lia. apply Hall. lia.
Qed.

Lemma match_at_bounds p s n :
  match_at p s = Some n → min_len p ≤ n ≤ length s.
Proof.
  revert s n. induction p as [|a p IH]; intros s n.
  - intros [= <-]. cbn. lia.
  - cbn [match_at min_len foldr].
    intros (m & r & Hm & Hr & ->)%try_down_Some.
    apply IH in Hr. rewrite length_drop in Hr.
    pose proof (run_le_length (cls a) (hi a) s).
    change (foldr (λ a n, lo a + n) 0 p) with (min_len p). lia.
Qed.

End Matcher.

(** ** Redaction leaves nothing to redact *)

Section Scanning.
Import Re.
Local Open Scope nat_scope.

Lemma quiet_nil p : quiet p [] = true ↔ match_at p [] = None.
Proof. cbn. destruct (match_at p []); split; done. Qed.

Lemma quiet_cons p c s :
  quiet p (c :: s) = true ↔ match_at p (c :: s) = None ∧ quiet p s = true.
Proof.
  cbn [quiet]. destruct (match_at p (c :: s)); split; try done.
  - by intros [? _].
  - by intros [_ ?].
Qed.

Lemma quiet_tail p s : quiet p s = true → match_at p [] = None.
Proof.
  induction s as [|c s IH]; [by intros ?%quiet_nil|].
  intros [_ ?]%quiet_cons. by apply IH.
Qed.

Lemma quiet_drop p s k : quiet p s = true → quiet p (drop k s) = true.
Proof.
  revert k. induction s as [|c s IH]; intros k Hq; [by rewrite drop_nil|].
  destruct k as [|k]; [done|]. cbn. apply IH.
  by apply quiet_cons in Hq as [_ ?].
Qed.

(** On a quiet text [findall] finds nothing and [sub] changes nothing. *)
Lemma quiet_findall_sub p tok s :
  quiet p s = true → findall p s = [] ∧ sub p tok s = s.
Proof.
  unfold findall, sub. induction s as [|c s IH].
  - intros Hq%quiet_nil. cbn. by rewrite Hq.
  - intros [Hm Hq]%quiet_cons. cbn [findall_from sub_from]. rewrite Hm.
    destruct (IH Hq) as [-> ->]. done.
Qed.

Lemma findall_nil_quiet p s : findall p s = [] → quiet p s = true.
Proof.
  unfold findall. induction s as [|c s IH].
  - cbn. by destruct (match_at p []).
  - cbn [findall_from quiet]. destruct (match_at p (c :: s)) as [[|n]|]; try done.
Qed.

Lemma quiet_token p t0 b rest :
  quiet p t0 = true → outside p b = true → quiet p rest = true →
  quiet p (t0 ++ b :: rest) = true.
Proof.
  intros Ht0 Hb Hrest. induction t0 as [|c t0 IH].
  - cbn [app]. apply quiet_cons. split; [|done].
    pose proof (match_at_outside p [] b rest Hb) as Hout. cbn [app] in Hout.
    rewrite Hout. by apply quiet_nil.
  - apply quiet_cons in Ht0 as [Hm Ht0]. cbn [app]. apply quiet_cons.
    split; [|by apply IH].
    pose proof (match_at_outside p (c :: t0) b rest Hb) as Hout.
    cbn [app] in Hout. by rewrite Hout.
Qed.

Lemma sealed_shape p tok :
  sealed p tok = true →
  ∃ b0 t1 t0 b, tok = b0 :: t1 ∧ tok = t0 ++ [b]
    ∧ outside p b0 = true ∧ outside p b = true ∧ quiet p t0 = true.
Proof.
  unfold sealed. destruct tok as [|b0 t1]; [done|].
  destruct (rev (b0 :: t1)) as [|b t0] eqn:Hrev; [done|].
  intros [[H0 Hb]%andb_true_iff Hq]%andb_true_iff.
  exists b0, t1, (rev t0), b. split_and!; try done.
  rewrite <- (rev_involutive (b0 :: t1)), Hrev. done.
Qed.

Lemma quiet_sealed p tok rest :
  sealed p tok = true → quiet p rest = true → quiet p (tok ++ rest) = true.
Proof.
  intros (b0 & t1 & t0 & b & _ & -> & _ & Hb & Hq)%sealed_shape Hrest.
  rewrite <- app_assoc. by apply quiet_token.
Qed.

(** The output of [sub] starts with the part of the text before the first
    match and goes on, if at all, with the token. *)
Lemma sub_from_shared q tok s skip :
  ∃ u r0, drop skip s = u ++ r0
    ∧ (sub_from q tok s skip = u ∨ ∃ r, sub_from q tok s skip = u ++ tok ++ r).
Proof.
  revert skip. induction s as [|c s IH]; intros skip.
  - exists [], []. rewrite drop_nil. split; [done|]. cbn.
    destruct skip; [|by left]. destruct (match_at q []); [|by left].
    right. exists []. by rewrite app_nil_r.
  - destruct skip as [|k].
    + cbn [sub_from]. destruct (match_at q (c :: s)) as [[|n]|].
      * exists [], (c :: s). split; [done|]. right. by eexists.
      * exists [], (c :: s). split; [done|]. right. by eexists.
      * destruct (IH 0) as (u & r0 & Hd & Hout). rewrite drop_0 in Hd.
        exists (c :: u), r0. split; [by rewrite drop_0, Hd|].
        destruct Hout as [->|[r ->]]; [by left|right; by exists r].
    + cbn [sub_from drop]. apply IH.
Qed.

(** An attempt that fails on the text fails on the output of [sub] too. *)
Lemma match_at_sub_None p q tok s skip pre :
  sealed p tok = true →
  match_at p (pre ++ drop skip s) = None →
  match_at p (pre ++ sub_from q tok s skip) = None.
Proof.
  intros (b0 & t1 & _ & _ & -> & _ & Hb0 & _)%sealed_shape Hnone.
  destruct (sub_from_shared q (b0 :: t1) s skip) as (u & r0 & Hd & Hout).
  rewrite Hd, app_assoc in Hnone. apply match_at_app_None in Hnone.
  destruct Hout as [->|[r ->]]; [done|].
  rewrite app_assoc. cbn [app]. by rewrite match_at_outside.
Qed.

(** A quiet text stays quiet when another pattern's matches are replaced
    by a sealed token. *)
Lemma quiet_sub_other p q tok s skip :
  sealed p tok = true →
  quiet p (drop skip s) = true → quiet p (sub_from q tok s skip) = true.
Proof.
  intros Hseal. revert skip. induction s as [|c s IH]; intros skip Hq.
  - rewrite drop_nil in Hq. cbn. destruct skip; [|done].
    destruct (match_at q []); [|done].
    rewrite <- (app_nil_r tok). by apply quiet_sealed.
  - destruct skip as [|k]; [|by apply IH].
    rewrite drop_0 in Hq. pose proof Hq as [Hm Hs]%quiet_cons.
    assert (quiet p (c :: sub_from q tok s 0) = true) as Hkeep.
    { apply quiet_cons. split; [|by apply IH].
      apply (match_at_sub_None p q tok s 0 [c]); [done|]. by rewrite drop_0. }
    cbn [sub_from]. destruct (match_at q (c :: s)) as [[|n]|]; [| |done].
    + by apply quiet_sealed.
    + apply quiet_sealed; [done|]. apply IH. by apply quiet_drop.
Qed.

(** After [sub] has replaced the matches of a pattern by a sealed token,
    the pattern matches nowhere. *)
Lemma quiet_sub_self p tok s skip :
  sealed p tok = true → 1 ≤ min_len p →
  quiet p (sub_from p tok s skip) = true.
Proof.
  intros Hseal Hmin.
  assert (∀ t, match_at p t ≠ Some 0) as Hpos.
  { intros t Ht%match_at_bounds. lia. }
  assert (match_at p [] = None) as Hend.
  { destruct (match_at p []) as [n|] eqn:Hn; [|done].
    apply match_at_bounds in Hn. cbn in Hn. lia. }
  revert skip. induction s as [|c s IH]; intros skip.
  - cbn [sub_from]. rewrite Hend. destruct skip; by apply quiet_nil.
  - destruct skip as [|k]; [|by apply IH].
    cbn [sub_from]. destruct (match_at p (c :: s)) as [[|n]|] eqn:Hm.
    + by destruct (Hpos (c :: s)).
    + by apply quiet_sealed.
    + apply quiet_cons. split; [|by apply IH].
      apply (match_at_sub_None p p tok s 0 [c]); [done|]. by rewrite drop_0.
Qed.

End Scanning.

Section Idempotence.
Import Re Moderation.
Context `{Runtime}.

Lemma pii_as_fold st :
  social_pass (email_pass (phone_pass st)) = foldl apply_pass st pii_passes.
Proof. reflexivity. Qed.

Lemma pii_passes_sealed : passes_sealed pii_passes = true.
Proof. vm_compute. reflexivity. Qed.

Lemma passes_sealed_spec passes x y :
  passes_sealed passes = true → x ∈ passes → y ∈ passes →
  (1 ≤ min_len x.2)%nat ∧ sealed x.2 y.1.2 = true.
Proof.
  unfold passes_sealed. rewrite forallb_forall.
  intros Hall Hx%list_elem_of_In Hy%list_elem_of_In.
  apply Hall in Hx. apply andb_true_iff in Hx as [Hmin Hs].
  split; [by apply Nat.leb_le|].
  rewrite forallb_forall in Hs. by apply Hs.
Qed.

Lemma apply_pass_quiet passes st x y :
  passes_sealed passes = true → x ∈ passes → y ∈ passes →
  (x = y ∨ quiet x.2 st.1 = true) →
  quiet x.2 (apply_pass st y).1 = true.
Proof.
  intros Hsealed Hx Hy Hq.
  destruct (passes_sealed_spec _ _ _ Hsealed Hx Hy) as [Hmin Hs].
  unfold apply_pass, redact.
  destruct (findall y.2 st.1) as [|m ms] eqn:Hfind.
  - destruct Hq as [->|Hq]; [|done]. by apply findall_nil_quiet.
  - cbn [fst]. unfold sub. destruct Hq as [->|Hq].
    + by apply quiet_sub_self.
    + apply quiet_sub_other; [done|]. by rewrite drop_0.
Qed.

(** After the passes have run, none of their patterns matches anywhere. *)
Lemma passes_quiet passes before todo st :
  passes_sealed passes = true → passes = before ++ todo →
  (∀ x, x ∈ before → quiet x.2 st.1 = true) →
  ∀ x, x ∈ passes → quiet x.2 (foldl apply_pass st todo).1 = true.
Proof.
  intros Hsealed. revert before st.
  induction todo as [|y todo IH]; intros before st Hsplit Hq x Hx.
  - apply Hq. by rewrite Hsplit, app_nil_r in Hx.
  - cbn [foldl]. apply (IH (before ++ [y])); [by rewrite <- app_assoc| |done].
    intros z Hz.
    assert (y ∈ passes) as Hy.
    { rewrite Hsplit. apply elem_of_app. right. by left. }
    assert (z ∈ passes) as Hz'.
    { rewrite Hsplit. apply elem_of_app.
      apply elem_of_app in Hz as [Hz|Hz%list_elem_of_singleton];
        [by left|right]. subst z. by left. }
    apply (apply_pass_quiet passes); try done.
    apply elem_of_app in Hz as [Hz|Hz%list_elem_of_singleton];
      [right; by apply Hq | by left].
Qed.

(** Passes whose patterns match nowhere leave the state as it is. *)
Lemma passes_fixed todo st :
  (∀ x, x ∈ todo → quiet x.2 st.1 = true) → foldl apply_pass st todo = st.
Proof.
  induction todo as [|y todo IH]; intros Hq; [done|].
  cbn [foldl].
  assert (apply_pass st y = st) as ->.
  { unfold apply_pass, redact.
    destruct (quiet_findall_sub y.2 y.1.2 st.1) as [-> _]; [|done].
    apply Hq. by left. }
  apply IH. intros x Hx. apply Hq. by right.
Qed.

Lemma pii_twice t vs :
  let out := (social_pass (email_pass (phone_pass (t, [])))).1 in
  social_pass (email_pass (phone_pass (out, vs))) = (out, vs).
Proof.
  cbn zeta. rewrite !pii_as_fold. apply passes_fixed. cbn [fst].
  apply (passes_quiet pii_passes []); [apply pii_passes_sealed|done|].
  intros x Hx. by apply elem_of_nil in Hx.
Qed.

(** The banned-word loop only ever adds violations. *)
Lemma banned_loop_extends entries st :
  ∃ extra, (banned_loop entries st).2 = st.2 ++ extra
    ∧ Forall (λ v, v_type v = banned_word) extra.
Proof.
  revert st. induction entries as [|[w regex] entries IH]; intros st.
  - exists []. by rewrite app_nil_r.
  - cbn [banned_loop]. destruct regex.
    + destruct (re_search_i w st.1) as [[|]|].
      * destruct (IH (re_sub_i w BANNED_TOKEN st.1,
                     st.2 ++ [Build_Violation banned_word [w]]))
          as (extra & -> & Hall).
        cbn [snd]. eexists. rewrite <- app_assoc. split; [done|].
        by constructor.
      * apply IH.
      * exists []. by rewrite app_nil_r.
    + destruct (contains _ _).
      * destruct (IH (sub (escaped w) BANNED_TOKEN st.1,
                     st.2 ++ [Build_Violation banned_word [w]]))
          as (extra & -> & Hall).
        cbn [snd]. eexists. rewrite <- app_assoc. split; [done|].
        by constructor.
      * apply IH.
Qed.

(** A loop that reports nothing changes nothing, whatever violations were
    recorded before it. *)
Lemma banned_loop_silent entries t vs vs' :
  Forall (λ v, pii_kind (v_type v) = true) (banned_loop entries (t, vs)).2 →
  banned_loop entries (t, vs) = (t, vs)
  ∧ banned_loop entries (t, vs') = (t, vs').
Proof.
  revert vs vs'. induction entries as [|[w regex] entries IH]; intros vs vs';
    [done|].
  cbn [banned_loop fst snd].
  assert (∀ t', ¬ Forall (λ v, pii_kind (v_type v) = true)
                  (banned_loop entries
                     (t', vs ++ [Build_Violation banned_word [w]])).2) as Hhit.
  { intros t' Hall.
    destruct (banned_loop_extends entries
                (t', vs ++ [Build_Violation banned_word [w]]))
      as (extra & Heq & _).
    rewrite Heq in Hall. cbn [snd] in Hall.
    apply Forall_app in Hall as [Hall _]. apply Forall_app in Hall as [_ Hall].
    rewrite Forall_singleton in Hall. cbn in Hall. done. }
  destruct regex.
  - destruct (re_search_i w t) as [[|]|]; [|apply IH|done].
    intros Hall. by apply Hhit in Hall.
  - destruct (contains _ _); [|apply IH].
    intros Hall. by apply Hhit in Hall.
Qed.

Lemma filter_final_state store t :
  filtered_text (filter_ugc_content store (Some t)) = (final_state store t).1
  ∧ violations (filter_ugc_content store (Some t)) = (final_state store t).2
    ∨ t = [].
Proof. destruct t; [by right|by left]. Qed.

Lemma banned_pass_extends store st :
  ∃ extra, (banned_pass store st).2 = st.2 ++ extra.
Proof.
  destruct store as [table|]; cbn.
  - destruct (banned_loop_extends (active_entries table) st) as (extra & ? & _).
    by exists extra.
  - exists []. by rewrite app_nil_r.
Qed.

(** When only the regex passes report, the later passes were silent: the
    text they saw is the text returned, and they are silent on it again. *)
Lemma only_patterns_hit store t :
  Forall (λ v, pii_kind (v_type v) = true) (final_state store t).2 →
  let out := (social_pass (email_pass (phone_pass (t, [])))).1 in
  (final_state store t).1 = out
  ∧ banned_pass store (profanity_pass (out, [])) = (out, []).
Proof.
  unfold final_state. intros Hall.
  destruct (social_pass (email_pass (phone_pass (t, [])))) as [out vs] eqn:Hpii.
  cbn [fst].
  destruct (contains_profanity out) eqn:Hprof.
  { exfalso. unfold profanity_pass in Hall. cbn [fst snd] in Hall.
    rewrite Hprof in Hall.
    destruct (banned_pass_extends store
                (censor out, vs ++ [Build_Violation profanity []]))
      as (extra & Heq).
    rewrite Heq in Hall. cbn [snd] in Hall.
    apply Forall_app in Hall as [Hall _]. apply Forall_app in Hall as [_ Hall].
    rewrite Forall_singleton in Hall. cbn in Hall. done. }
  unfold profanity_pass in *. cbn [fst snd] in *. rewrite Hprof in *.
  destruct store as [table|]; cbn [banned_pass] in *; [|done].
  destruct (banned_loop_silent (active_entries table) out vs [] Hall)
    as [-> ->]. done.
Qed.

(** C3 as stated does not hold: with the word "gizlendi" banned, the text
    "gizlendi" is replaced by the banned-word token, which contains the
    word; a second run replaces it inside the token and reports it again. *)
Lemma banned_word_inside_token :
  let first :=
    @filter_ugc_content Plain.plain Examples.banned_gizlendi
      (Some (str "gizlendi")) in
  let second :=
    @filter_ugc_content Plain.plain Examples.banned_gizlendi
      (Some (filtered_text first)) in
  filtered_text first = BANNED_TOKEN
  ∧ filtered_text second ≠ filtered_text first
  ∧ violations second ≠ [].
Proof. vm_compute. split_and!; done. Qed.

(** C3, amended. When a run of the filter reports nothing but phone,
    e-mail and social-media violations (in particular when it reports
    nothing, or when no banned word is active and the profanity list does
    not object), a second run on its [filtered_text] returns that text
    unchanged with no violation.  The tokens the filter writes are
    themselves left alone by all ten patterns. *)
Theorem redaction_idempotent_when_only_patterns_hit
    (store : option (list BannedWord)) (input : text) :
  let first := filter_ugc_content store (Some input) in
  Forall (λ v, pii_kind (v_type v) = true) (violations first) →
  filter_ugc_content store (Some (filtered_text first))
  = {| filtered_text := filtered_text first;
       original_text := filtered_text first;
       is_clean := true; violations := [] |}
  ∧ Forall (λ tok, social_pass (email_pass (phone_pass (tok, []))) = (tok, []))
      [PHONE_TOKEN; EMAIL_TOKEN; SOCIAL_TOKEN; BANNED_TOKEN].
Proof.
  intros first Hall. split; [|by repeat constructor].
  subst first. destruct (filter_final_state store input) as [[Hf Hv]| ->];
    [|done].
  rewrite Hf. rewrite Hv in Hall.
  destruct (only_patterns_hit store input Hall) as [-> Hsilent].
  set (out := (social_pass (email_pass (phone_pass (input, [])))).1) in *.
  destruct out as [|c out'] eqn:Hout; [done|].
  cbn [filter_ugc_content]. rewrite <- Hout.
  assert (social_pass (email_pass (phone_pass (out, []))) = (out, [])) as ->.
  { rewrite Hout. subst out. rewrite <- Hout. apply pii_twice. }
  rewrite <- Hout in Hsilent. rewrite Hsilent. done.
Qed.

End Idempotence.

(** ** Instances on the example data *)

Section Instances.
Import Accounts Activities Messaging Moderation MessagingViews Consumers Examples.

(** A greeting posted by alice over HTTP is stored trimmed and unflagged. *)
Lemma stored_message_follows_filter_witness :
  ∃ m d',
    @send_message Plain.plain 1 1 (Some (str " hello ")) 20 chat_db
    = (Ok 201 m, d')
    ∧ (original_content m ≠ [] → is_filtered m = true).
Proof.
  destruct (@stored_message_follows_filter Plain.plain 1 1 20 chat_db)
    as [Hhttp _].
  assert (∃ m d', @send_message Plain.plain 1 1 (Some (str " hello ")) 20 chat_db
                  = (Ok 201 m, d')) as (m & d' & Hsent).
  { vm_compute. eexists _, _. reflexivity. }
  exists m, d'. split; [exact Hsent|].
  destruct (Hhttp _ _ _ Hsent) as (raw & _ & _ & Hstored).
  apply Hstored.
Defined.

(** The scenario's message on the plain runtime, sent by alice. *)
Lemma phone_scenario_stored_unredacted_witness :
  ∃ md d',
    @save_message Plain.plain alice 1 phone_scenario 20 chat_db = Some (md, d')
    ∧ md_content md = phone_scenario ∧ md_is_filtered md = false.
Proof.
  assert (∃ md d', @save_message Plain.plain alice 1 phone_scenario 20 chat_db
                   = Some (md, d')) as (md & d' & Hsaved).
  { vm_compute. eexists _, _. reflexivity. }
  exists md, d'. split; [exact Hsaved|].
  destruct (@phone_scenario_stored_unredacted Plain.plain alice 1 20 chat_db
              md d') as (m & _ & _ & _ & _ & _ & Hc & Hf).
  - reflexivity.
  - intros table [= <-]. reflexivity.
  - exact Hsaved.
  - split; [exact Hc | exact Hf].
Defined.


(** An e-mail address is redacted once; the second run finds nothing. *)
Lemma redaction_idempotent_when_only_patterns_hit_witness :
  let first :=
    @filter_ugc_content Plain.plain (Some []) (Some (str "write to a.b@c.com")) in
  Forall (λ v, pii_kind (v_type v) = true) (violations first)
  ∧ violations first ≠ []
  ∧ violations
      (@filter_ugc_content Plain.plain (Some []) (Some (filtered_text first)))
    = [].
Proof.
  intros first.
  assert (Forall (λ v, pii_kind (v_type v) = true) (violations first)) as Hall.
  { vm_compute. repeat constructor. }
  split; [exact Hall|]. split; [by vm_compute|].
  destruct (@redaction_idempotent_when_only_patterns_hit Plain.plain (Some [])
              (str "write to a.b@c.com") Hall) as [Hsecond _].
  fold first in Hsecond. rewrite Hsecond. reflexivity.
Defined.

(** Alice is in the room of conversation 1; carol, who is not a
    participant, tries to connect and hears nothing of what alice sends. *)
Lemma refused_connection_never_joins_witness :
  let w :=
    @run Plain.plain (start chat_db)
      [ ws_connect "alice-1" (authenticated alice) 1;
        ws_connect "carol-1" (authenticated carol) 1;
        ws_receive "alice-1" (chat_message_payload (Some (str "hi"))) 30 ] in
  (∃ c, consumers w !! "carol-1"%string = Some c ∧ state c = Closed ∧ sent c = [])
  ∧ ∀ g, "carol-1"%string ∉ members g w.
Proof.
  apply (@refused_connection_never_joins Plain.plain chat_db
           [ ws_connect "alice-1" (authenticated alice) 1 ]
           [ ws_receive "alice-1" (chat_message_payload (Some (str "hi"))) 30 ]
           "carol-1" (authenticated carol) 1).
  - vm_compute. reflexivity.
  - vm_compute. reflexivity.
Defined.

(** Alice and bob are both in the room; alice's typing reaches bob only. *)
Lemma typing_skips_sender_chat_reaches_all_witness :
  let w :=
    @run Plain.plain (start chat_db)
      [ ws_connect "alice-1" (authenticated alice) 1;
        ws_connect "bob-1" (authenticated bob) 1 ] in
  let w' := @step Plain.plain w (ws_receive "alice-1" (typing_payload (Some true)) 30) in
  sent <$> consumers w' !! "alice-1"%string = Some []
  ∧ sent <$> consumers w' !! "bob-1"%string
    = Some [frame_typing 1 (str "Alice") true].
Proof.
  intros w w'.
  destruct (@typing_skips_sender_chat_reaches_all Plain.plain chat_db
              [ ws_connect "alice-1" (authenticated alice) 1;
                ws_connect "bob-1" (authenticated bob) 1 ]
              "alice-1" (Build_Consumer (authenticated alice) 1 Joined [])
              alice 30)
    as (_ & _ & Htyping & _).
  - vm_compute. reflexivity.
  - reflexivity.
  - reflexivity.
  - destruct (Htyping (Some true)) as [Hall (c'' & Hc'' & Hsent)].
    fold w in Hall, Hc''. fold w' in Hc''. split.
    + fold w' . rewrite Hc''. cbn. by rewrite Hsent.
    + destruct (Hall "bob-1"%string
                  (Build_Consumer (authenticated bob) 1 Joined []))
        as (cb & Hcb & Hsentb); [vm_compute; reflexivity|].
      fold w' in Hcb. rewrite Hcb. cbn. rewrite Hsentb.
      vm_compute. reflexivity.
Defined.

(** Alice asks for bob, with whom she talks since time 10, after she has
    opened the conversation with bob and carol at time 15: a second
    conversation of alice and bob is created. *)
Lemma duplicate_direct_conversation_created_witness :
  conversations group_db = [chat_1_2; chat_1_2_3]
  ∧ ∃ c d', @create_conversation Plain.plain 1 (ask_for 2) 20 group_db
            = (Ok 201 c, d')
      ∧ conversations d' = [chat_1_2; chat_1_2_3; c]
      ∧ conversation_type c = direct
      ∧ participants c = participants chat_1_2
      ∧ conv_pk c ≠ conv_pk chat_1_2.
Proof.
  assert (conversations group_db = [chat_1_2; chat_1_2_3]) as Hstore
    by (vm_compute; reflexivity).
  assert (direct_with 1 2 group_db = [chat_1_2; chat_1_2_3]) as Hboth
    by (vm_compute; reflexivity).
  split; [exact Hstore|].
  destruct (@duplicate_direct_conversation_created Plain.plain 1 2 20 group_db
              None [] chat_1_2 chat_1_2_3)
    as (c & d' & Hanswer & Hrows & Htype & Hpair & _ & Hold & _ & Hkey).
  - reflexivity.
  - vm_compute. apply not_elem_of_nil.
  - discriminate.
  - exists bob. split_and!; [|reflexivity..].
    right. left.
  - rewrite Hboth. left.
  - reflexivity.
  - rewrite Hboth. right. left.
  - rewrite Hboth. constructor; [intros _; reflexivity|].
    constructor; [|constructor]. intros Htwo. vm_compute in Htwo. discriminate.
  - exists c, d'. split; [exact Hanswer|]. rewrite Hrows, Hstore.
    split_and!; [done|done|by rewrite Hpair, Hold|done].
Defined.

(** Bob's unread message to alice is marked read when she opens the
    conversation; its [read_at] stays null. *)
Lemma bulk_mark_read_sets_only_is_read_witness :
  let d := (@create_message Plain.plain 1 2 (str "hello") 15 chat_db).2 in
  ∃ body d', @retrieve 1 1 d = (Ok 200 body, d')
    ∧ Forall2 (read_marked 1 1) (messages d) (messages d').
Proof.
  intros d.
  destruct (@bulk_mark_read_sets_only_is_read Plain.plain 1 1 d) as [Hdetail _].
  assert (∃ body d', @retrieve 1 1 d = (Ok 200 body, d')) as (body & d' & Hr).
  { vm_compute. eexists _, _. reflexivity. }
  exists body, d'. split; [exact Hr|]. by apply (Hdetail body).
Defined.

End Instances.

(** * Further properties *)

(** ** The filter changes a text only when it reports *)

Section FilterReports.
Import Re Accounts Messaging Moderation MessagingViews Consumers.
Context `{Runtime}.

Lemma apply_pass_extends st y :
  ∃ extra, (apply_pass st y).2 = st.2 ++ extra
    ∧ (extra = [] → apply_pass st y = st)
    ∧ (findall y.2 st.1 ≠ [] → ∃ ms, extra = [Build_Violation y.1.1 ms]).
Proof.
  unfold apply_pass, redact. destruct (findall y.2 st.1) as [|m ms].
  - exists []. by rewrite app_nil_r.
  - eexists. cbn [snd]. split_and!; [done|done|]. intros _. by eexists.
Qed.

Lemma passes_extend passes st :
  ∃ extra, (foldl apply_pass st passes).2 = st.2 ++ extra
    ∧ (extra = [] → foldl apply_pass st passes = st)
    ∧ Forall (λ v, ∃ y, y ∈ passes ∧ v_type v = y.1.1) extra.
Proof.
  revert st. induction passes as [|y passes IH]; intros st.
  - exists []. by rewrite app_nil_r.
  - cbn [foldl].
    destruct (apply_pass_extends st y) as (e1 & He1 & Hsame & Hkind).
    destruct (IH (apply_pass st y)) as (e2 & He2 & Hsame2 & Hkinds).
    exists (e1 ++ e2). rewrite He2, He1, app_assoc. split_and!; [done| |].
    + intros [-> ->]%app_eq_nil. by rewrite Hsame2, Hsame.
    + apply Forall_app. split.
      * destruct (findall y.2 st.1) as [|m ms] eqn:Hf.
        -- unfold apply_pass, redact in He1. rewrite Hf in He1.
           assert (e1 = []) as ->; [|done].
           apply (app_inv_head st.2). by rewrite app_nil_r.
        -- destruct Hkind as [ms' ->]; [done|]. repeat constructor.
           exists y. split; [by left|done].
      * eapply Forall_impl; [exact Hkinds|]. intros v (z & Hz & Hv).
        exists z. split; [by right|done].
Qed.

(** A pass whose pattern matches somewhere reports, unless an earlier pass
    has reported already. *)
Lemma passes_fire passes st x :
  x ∈ passes → quiet x.2 st.1 = false →
  ∃ v extra, (foldl apply_pass st passes).2 = st.2 ++ v :: extra
    ∧ ∃ y, y ∈ passes ∧ v_type v = y.1.1.
Proof.
  revert st. induction passes as [|y passes IH]; intros st Hx Hloud.
  - by apply elem_of_nil in Hx.
  - cbn [foldl]. destruct (findall y.2 st.1) as [|m ms] eqn:Hf.
    + assert (apply_pass st y = st) as ->.
      { unfold apply_pass, redact. by rewrite Hf. }
      apply elem_of_cons in Hx as [->|Hx].
      * apply findall_nil_quiet in Hf. congruence.
      * destruct (IH st Hx Hloud) as (v & extra & Heq & z & Hz & Hv).
        exists v, extra. split; [done|]. exists z. split; [by right|done].
    + destruct (apply_pass_extends st y) as (e1 & He1 & _ & Hkind).
      destruct Hkind as [ms' ->]; [by rewrite Hf|].
      destruct (passes_extend passes (apply_pass st y)) as (e2 & He2 & _).
      eexists _, e2. rewrite He2, He1, <- app_assoc. split; [done|].
      exists y. split; [by left|done].
Qed.

Lemma profanity_pass_extends st :
  ∃ extra, (profanity_pass st).2 = st.2 ++ extra
    ∧ (extra = [] → profanity_pass st = st).
Proof.
  unfold profanity_pass. destruct (contains_profanity st.1).
  - by eexists.
  - exists []. by rewrite app_nil_r.
Qed.

Lemma banned_loop_same entries st :
  (banned_loop entries st).2 = st.2 → banned_loop entries st = st.
Proof.
  revert st. induction entries as [|[w regex] entries IH]; intros st; [done|].
  cbn [banned_loop].
  assert (∀ t', (banned_loop entries
                   (t', st.2 ++ [Build_Violation banned_word [w]])).2 ≠ st.2)
    as Hgrew.
  { intros t' Heq.
    destruct (banned_loop_extends entries
                (t', st.2 ++ [Build_Violation banned_word [w]]))
      as (extra & Hext & _).
    rewrite Hext in Heq. cbn [snd] in Heq.
    apply (f_equal length) in Heq. rewrite !length_app in Heq. cbn in Heq. lia. }
  destruct regex.
  - destruct (re_search_i w st.1) as [[|]|]; [|apply IH|done].
    intros Heq. by apply Hgrew in Heq.
  - destruct (contains _ _); [|apply IH].
    intros Heq. by apply Hgrew in Heq.
Qed.

Lemma final_state_silent store t :
  (final_state store t).2 = [] → (final_state store t).1 = t.
Proof.
  unfold final_state. rewrite pii_as_fold.
  destruct (passes_extend pii_passes (t, [])) as (e1 & He1 & Hs1 & _).
  destruct (profanity_pass_extends (foldl apply_pass (t, []) pii_passes))
    as (e2 & He2 & Hs2).
  destruct (banned_pass_extends store
              (profanity_pass (foldl apply_pass (t, []) pii_passes)))
    as (e3 & He3).
  intros Hnil. rewrite He3, He2, He1 in Hnil. cbn [snd] in Hnil.
  apply app_eq_nil in Hnil as [Hnil ->]. apply app_eq_nil in Hnil as [Hnil ->].
  cbn in Hnil. subst e1.
  assert (banned_pass store (profanity_pass (foldl apply_pass (t, []) pii_passes))
          = profanity_pass (foldl apply_pass (t, []) pii_passes)) as ->.
  { destruct store as [table|]; [|done]. apply banned_loop_same.
    cbn [banned_pass] in He3. by rewrite He3, app_nil_r. }
  rewrite Hs2, Hs1 by done. done.
Qed.

Lemma filter_clean_unchanged store t :
  is_clean (filter_ugc_content store (Some t)) = true →
  filtered_text (filter_ugc_content store (Some t)) = t.
Proof.
  destruct t as [|c t]; [done|].
  rewrite is_clean_violations. intros Hc%bool_decide_eq_true.
  by apply final_state_silent.
Qed.

(** X1. The filter returns the text it was given as [original_text], and
    it changes the text only when it reports: a clean verdict comes with
    [filtered_text] equal to the input. *)
Theorem clean_verdict_returns_input (store : option (list BannedWord))
    (t : text) :
  let r := filter_ugc_content store (Some t) in
  original_text r = t
  ∧ (is_clean r = true → filtered_text r = t)
  ∧ (filtered_text r ≠ t → violations r ≠ []).
Proof.
  cbn zeta. split_and!.
  - by destruct t.
  - apply filter_clean_unchanged.
  - intros Hne Hnil. apply Hne, filter_clean_unchanged.
    rewrite is_clean_violations. by apply bool_decide_eq_true.
Qed.

Lemma create_message_content cid user raw now d :
  let r := filter_ugc_content (banned_words d) (Some raw) in
  let m := (create_message cid user raw now d).1 in
  content m = filtered_text r ∧ is_filtered m = negb (is_clean r).
Proof.
  cbn zeta. unfold create_message. cbn [fst content is_filtered].
  split; [|done].
  destruct (is_clean (filter_ugc_content (banned_words d) (Some raw))) eqn:Hc;
    [|done].
  cbn [negb]. symmetry. by apply filter_clean_unchanged.
Qed.

(** X2. What the WebSocket path hands to the room is what it stored, and
    that is the filter's [filtered_text]: the raw text of a message is
    broadcast only when the filter left it as it was.  The data also carry
    the sender's key and name and the time of the send. *)
Theorem broadcast_is_filtered_text (u : User) (cid : Z) (raw : text) (now : Z)
    (d : DB) (md : MessageData) (d' : DB) :
  save_message u cid raw now d = Some (md, d') →
  let r := filter_ugc_content (banned_words d) (Some raw) in
  md_content md = filtered_text r
  ∧ md_is_filtered md = negb (is_clean r)
  ∧ md_sender_id md = pk u
  ∧ md_sender_display_name md = get_short_name u
  ∧ md_created_at md = now
  ∧ ∃ m, messages d' = messages d ++ [m]
      ∧ content m = md_content md ∧ msg_pk m = md_id md
      ∧ sender m = pk u ∧ conversation m = cid.
Proof.
  unfold save_message. destruct (head _) as [conv|] eqn:Hconv; [|done].
  apply head_filter_pk in Hconv.
  pose proof (create_message_content (conv_pk conv) (pk u) raw now d) as Hc.
  pose proof (create_message_stored (conv_pk conv) (pk u) raw now d) as Hs.
  assert (created_at (create_message (conv_pk conv) (pk u) raw now d).1 = now)
    as Hnow by reflexivity.
  destruct (create_message (conv_pk conv) (pk u) raw now d) as [m d1].
  cbn zeta in Hc. cbn [fst] in Hc, Hnow. destruct Hc as [Hcontent Hflag].
  destruct Hs as (Hm & _ & _ & _ & Hcid & Hsender).
  intros [= <- <-].
  cbn [md_content md_is_filtered md_sender_id md_sender_display_name
       md_created_at md_id].
  split_and!; [exact Hcontent|exact Hflag|reflexivity|reflexivity|exact Hnow|].
  exists m. rewrite save_conversation_messages.
  split_and!; [exact Hm|reflexivity|reflexivity|exact Hsender|].
  by rewrite Hcid.
Qed.

Lemma quiet_head p s : quiet p s = true → match_at p s = None.
Proof.
  destruct s; [by intros ?%quiet_nil | by intros [? _]%quiet_cons].
Qed.

Lemma loud_inside p pre s :
  match_at p s ≠ None → quiet p (pre ++ s) = false.
Proof.
  intros Hm. apply not_true_is_false. intros Hq.
  apply (quiet_drop _ _ (length pre)) in Hq. rewrite drop_app_length in Hq.
  by apply quiet_head in Hq.
Qed.

(** X3. Redaction is complete for its patterns: after the phone, e-mail
    and social passes none of the ten patterns matches anywhere in the
    text, and whenever the filter reports nothing but such violations this
    holds for the [filtered_text] it returns. *)
Theorem no_pattern_matches_after_redaction (store : option (list BannedWord))
    (t : text) (x : ViolationType * text * pattern) :
  x ∈ pii_passes →
  findall x.2 (social_pass (email_pass (phone_pass (t, [])))).1 = []
  ∧ (Forall (λ v, pii_kind (v_type v) = true)
       (violations (filter_ugc_content store (Some t))) →
     findall x.2 (filtered_text (filter_ugc_content store (Some t))) = []).
Proof.
  intros Hx.
  assert (∀ t', quiet x.2 (social_pass (email_pass (phone_pass (t', [])))).1
                = true) as Hquiet.
  { intros t'. rewrite pii_as_fold.
    apply (passes_quiet pii_passes []); [apply pii_passes_sealed|done| |done].
    intros y Hy. by apply elem_of_nil in Hy. }
  split; [by apply (quiet_findall_sub _ []) |].
  destruct (filter_final_state store t) as [[-> ->]| ->].
  - intros Hall. destruct (only_patterns_hit store t Hall) as [-> _].
    by apply (quiet_findall_sub _ []).
  - intros _. change (filtered_text _) with (@nil N).
    specialize (Hquiet []).
    assert ((social_pass (email_pass (phone_pass (([] : text), [])))).1 = [])
      as Hnil
      by (vm_compute; reflexivity).
    rewrite Hnil in Hquiet. by apply (quiet_findall_sub _ []) in Hquiet as [? _].
Qed.

Lemma run_ge c limit ds post n :
  Forall (λ x, c x = true) ds → (n ≤ length ds)%nat →
  (∀ k, limit = Some k → (n ≤ k)%nat) →
  (n ≤ Re.run c limit (ds ++ post))%nat.
Proof.
  intros Hds. revert limit n.
  induction Hds as [|x ds Hx Hds IH]; intros limit n Hn Hlim.
  - cbn in Hn. lia.
  - destruct n as [|n]; [lia|]. cbn in Hn.
    destruct limit as [[|k]|]; cbn [Re.run app].
    + specialize (Hlim 0%nat eq_refl). lia.
    + rewrite Hx. apply le_n_S. apply IH; [lia|].
      intros k' [= <-]. specialize (Hlim (S k) eq_refl). lia.
    + rewrite Hx. apply le_n_S. apply IH; [lia|done].
Qed.

Lemma try_down_always low n :
  (low ≤ n)%nat → try_down (λ _, Some 0%nat) low n = Some (n + 0)%nat.
Proof.
  intros Hn. destruct n as [|n]; cbn [try_down].
  - destruct (Nat.ltb_spec 0 low); [lia|done].
  - destruct (Nat.ltb_spec (S n) low); [lia|done].
Qed.

Lemma filter_violations_extend store (t : text) :
  t ≠ [] →
  ∃ extra,
    violations (filter_ugc_content store (Some t))
    = (social_pass (email_pass (phone_pass (t, [])))).2 ++ extra.
Proof.
  intros Ht. destruct (filter_final_state store t) as [[_ Hv]| ->]; [|done].
  destruct (profanity_pass_extends
              (social_pass (email_pass (phone_pass (t, [])))))
    as (e2 & He2 & _).
  destruct (banned_pass_extends store
              (profanity_pass (social_pass (email_pass (phone_pass (t, []))))))
    as (e3 & He3).
  exists (e2 ++ e3). rewrite Hv. unfold final_state.
  by rewrite He3, He2, app_assoc.
Qed.

Lemma fold_redact k tok (l : list pattern) st :
  foldl (redact k tok) st l = foldl apply_pass st (map (λ p, (k, tok, p)) l).
Proof. revert st. induction l as [|p l IH]; intros st; [done|]. apply IH. Qed.

(** The violations of a run start with those of the phone passes. *)
Lemma filter_violations_phone store (t : text) :
  t ≠ [] →
  ∃ extra,
    violations (filter_ugc_content store (Some t))
    = (phone_pass (t, [])).2 ++ extra.
Proof.
  intros Ht. destruct (filter_violations_extend store t Ht) as (e3 & ->).
  unfold social_pass, email_pass. rewrite fold_redact.
  destruct (passes_extend
              (map (λ p, (social_media, SOCIAL_TOKEN, p)) SOCIAL_PATTERNS)
              (redact email EMAIL_TOKEN (phone_pass (t, [])) EMAIL_PATTERN))
    as (e2 & -> & _).
  destruct (apply_pass_extends (phone_pass (t, []))
              (email, EMAIL_TOKEN, EMAIL_PATTERN)) as (e1 & He1 & _).
  unfold apply_pass in He1. cbn [fst snd] in He1. rewrite He1.
  exists ((e1 ++ e2) ++ e3). by rewrite !app_assoc.
Qed.

(** X4. Ten consecutive digits anywhere in a text are reported: the
    result carries a [phone_number] violation and is not clean. *)
Theorem ten_digits_are_reported (store : option (list BannedWord))
    (pre ds post : text) :
  Forall (λ c, is_digit c = true) ds → length ds = 10%nat →
  let r := filter_ugc_content store (Some (pre ++ ds ++ post : text)) in
  is_clean r = false
  ∧ ∃ v, v ∈ violations r ∧ v_type v = phone_number.
Proof.
  intros Hds Hlen r.
  set (t := (pre ++ ds ++ post : text)) in *.
  set (x := (phone_number, PHONE_TOKEN, [rep_range is_digit 10 11])).
  assert (quiet x.2 t = false) as Hloud.
  { apply loud_inside. cbn [snd x match_at rep_range cls lo hi].
    pose proof (run_ge is_digit (Some 11%nat) ds post 10 Hds) as Hrun.
    rewrite try_down_always; [done|]. apply Hrun; [lia|].
    intros k [= <-]. lia. }
  destruct (passes_fire
              (map (λ p, (phone_number, PHONE_TOKEN, p)) PHONE_PATTERNS)
              (t, []) x) as (v & e0 & Hphone & y & Hy & Hv);
    [by (right; right; left)|exact Hloud|].
  assert (v_type v = phone_number) as Hkind.
  { rewrite Hv. apply list_elem_of_fmap in Hy as (p & -> & _). done. }
  rewrite <- fold_redact in Hphone.
  destruct (filter_violations_phone store t) as (e3 & He3).
  { subst t. destruct ds; [done|]. by destruct pre. }
  unfold phone_pass in He3. rewrite Hphone in He3. cbn [snd app] in He3.
  assert (v ∈ violations r) as Hin.
  { subst r. rewrite He3. by left. }
  split; [|by exists v].
  subst r. rewrite is_clean_violations. apply bool_decide_eq_false_2.
  intros Hnil. rewrite Hnil in Hin. by apply elem_of_nil in Hin.
Qed.

(** X5. An at sign followed by three or more letters, digits or
    underscores anywhere in a text is never passed as clean. *)
Theorem handle_is_never_clean (store : option (list BannedWord))
    (pre h post : text) :
  Forall (λ c, word_char c = true) h → (3 ≤ length h)%nat →
  is_clean (filter_ugc_content store (Some (pre ++ 64%N :: h ++ post : text)))
  = false.
Proof.
  intros Hh Hlen.
  set (t := (pre ++ 64%N :: h ++ post : text)).
  set (x := (social_media, SOCIAL_TOKEN,
             [one (icase (is_char 64)); at_least (icase word_char) 3])).
  assert (quiet x.2 t = false) as Hloud.
  { apply loud_inside. cbn [snd x match_at one at_least cls lo hi].
    assert (Re.run (icase (is_char 64)) (Some 1%nat) (64%N :: h ++ post) = 1%nat)
      as ->.
    { cbn [Re.run]. change (icase (is_char 64) 64%N) with true.
      cbn [fmap option_fmap option_map pred]. by destruct (h ++ post). }
    cbn [try_down Nat.ltb Nat.leb drop].
    pose proof (run_ge (icase word_char) None h post 3) as Hrun.
    rewrite try_down_always; [done|]. apply Hrun; [|done..].
    eapply Forall_impl; [exact Hh|]. intros c Hc. unfold icase. by rewrite Hc. }
  destruct (passes_fire pii_passes (t, []) x) as (v & e0 & Hpii & _);
    [|exact Hloud|].
  { unfold pii_passes. apply elem_of_app. right. apply elem_of_app. right.
    by left. }
  rewrite <- pii_as_fold in Hpii.
  destruct (filter_violations_extend store t) as (e3 & He3).
  { subst t. by destruct pre. }
  rewrite is_clean_violations. apply bool_decide_eq_false_2.
  rewrite He3, Hpii. cbn [snd app]. done.
Qed.

End FilterReports.

(** ** Sending and reading over HTTP *)

Section SendAndRead.
Import Re Accounts Messaging Moderation MessagingViews Consumers
  ConversationProperties.
Context `{Runtime}.

Lemma char_field_Some n blank raw v :
  char_field n blank raw = Some v →
  v = strip raw ∧ (length v ≤ n)%nat ∧ (blank = false → v ≠ []).
Proof.
  unfold char_field. cbv zeta.
  destruct (bool_decide (strip raw = []) && negb blank) eqn:Hb; [done|].
  destruct (bool_decide (length (strip raw) ≤ n)%nat) eqn:Hlen; [|done].
  destruct (forallb permitted (strip raw)); [|done]. cbn [andb].
  apply bool_decide_eq_true in Hlen. intros [= <-]. split_and!; [done..|].
  intros -> Hnil. rewrite Hnil in Hb. by rewrite bool_decide_eq_true_2 in Hb.
Qed.

Lemma save_conversation_rows now c d :
  Forall2 (λ row row', if bool_decide (conv_pk row = conv_pk c)
                        then row' = touch now c else row' = row)
    (conversations d) (conversations (save_conversation now c d)).
Proof.
  unfold save_conversation. cbn [conversations set_conversations].
  apply Forall2_fmap_r, Forall_Forall2_diag, Forall_forall. intros row _.
  unfold compose. by destruct (bool_decide (conv_pk row = conv_pk c)).
Qed.

(** X6. A send that succeeds moves the conversation's [last_message_at] to
    the time of the send and leaves every other conversation row, and the
    other columns of this one, as they were. *)
Theorem send_touches_conversation (user cid : Z) (submitted : text) (now : Z)
    (d : DB) (m : Message) (d' : DB) :
  send_message user cid (Some submitted) now d = (Ok 201 m, d') →
  ∃ c, get_conversation_of user cid d = Some c
    ∧ Forall2 (λ row row', if bool_decide (conv_pk row = cid)
                            then row' = touch now c else row' = row)
        (conversations d) (conversations d')
    ∧ last_message_at (touch now c) = now
    ∧ participants (touch now c) = participants c
    ∧ conversation_type (touch now c) = conversation_type c.
Proof.
  unfold send_message.
  destruct (get_conversation_of user cid d) as [c|] eqn:Hc; [|done].
  change (Some submitted ≫= char_field 2000 false)
    with (char_field 2000 false submitted).
  destruct (char_field 2000 false submitted) as [content|]; [|done].
  pose proof (create_message_conversations (conv_pk c) user content now d) as Hk.
  destruct (create_message (conv_pk c) user content now d) as [m1 d1].
  cbn [snd] in Hk. intros [= <- <-]. exists c. split_and!; try done.
  pose proof (save_conversation_rows now c d1) as Hrows. rewrite Hk in Hrows.
  by apply get_conversation_of_pk in Hc as [<- _].
Qed.

(** X7. [SendMessageView.post] answers 404, 400 or 201.  On 404 and 400 the
    store is untouched; 201 is given only to a participant of the
    conversation, for a text that is not blank after trimming and has at
    most 2000 characters, and the stored message names that user and
    conversation. *)
Theorem send_message_guards (user cid : Z) (raw : option text) (now : Z)
    (d : DB) (resp : Response Message) (d' : DB) :
  send_message user cid raw now d = (resp, d') →
  match resp with
  | Err code => d' = d ∧ (code = 404 ∨ code = 400)
  | Ok code m =>
    code = 201
    ∧ (∃ c, c ∈ conversations d ∧ conv_pk c = cid ∧ user ∈ participants c)
    ∧ (∃ submitted, raw = Some submitted ∧ strip submitted ≠ []
         ∧ (length (strip submitted) ≤ 2000)%nat)
    ∧ sender m = user ∧ conversation m = cid
  end.
Proof.
  unfold send_message.
  destruct (get_conversation_of user cid d) as [c|] eqn:Hc;
    [|intros [= <- <-]; split; [done|by left]].
  destruct raw as [submitted|]; [|intros [= <- <-]; split; [done|by right]].
  change (Some submitted ≫= char_field 2000 false)
    with (char_field 2000 false submitted).
  destruct (char_field 2000 false submitted) as [content|] eqn:Hfield;
    [|intros [= <- <-]; split; [done|by right]].
  pose proof (create_message_stored (conv_pk c) user content now d) as Hs.
  destruct (create_message (conv_pk c) user content now d) as [m1 d1].
  destruct Hs as (_ & _ & _ & _ & Hcid & Hsender).
  intros [= <- <-].
  apply char_field_Some in Hfield as (-> & Hlen & Hne).
  pose proof Hc as [Hpk Hin]%get_conversation_of_pk.
  apply head_Some_elem_of, list_elem_of_filter in Hc as [_ Hstored].
  split_and!; try done.
  - by exists c.
  - exists submitted. split_and!; [done|by apply Hne|done].
  - by rewrite Hcid.
Qed.

Lemma update_is_read_twice cid user table :
  update_is_read cid user (update_is_read cid user table)
  = update_is_read cid user table.
Proof.
  unfold update_is_read. rewrite <- list_fmap_compose.
  apply list_fmap_ext. intros _ m _. cbn.
  destruct (unread_from_others cid user m) eqn:Hm; [|by rewrite Hm].
  unfold unread_from_others. cbn. by rewrite andb_false_r.
Qed.

Lemma count_unread_after cid user table :
  count_unread cid user (update_is_read cid user table) = 0%nat.
Proof.
  unfold count_unread, update_is_read.
  induction table as [|m table IH]; [done|].
  cbn [map]. rewrite filter_cons.
  destruct (unread_from_others cid user m) eqn:Hm.
  - rewrite decide_False; [done|].
    unfold unread_from_others. cbn. by rewrite andb_false_r.
  - by rewrite decide_False by congruence.
Qed.

(** X8. Marking as read twice: the second call of the mark-read endpoint
    updates no row and leaves the store as the first call left it.  The
    first call reports the user's unread count for the conversation, and
    afterwards that count is zero. *)
Theorem mark_read_is_idempotent (user cid : Z) (d : DB) (n : nat) (d1 : DB) :
  mark_messages_read user cid d = (Ok 200 n, d1) →
  mark_messages_read user cid d1 = (Ok 200 0%nat, d1)
  ∧ ∀ c, conv_pk c = cid →
      n = unread_count_for c user d ∧ unread_count_for c user d1 = 0%nat.
Proof.
  unfold mark_messages_read.
  destruct (get_conversation_of user cid d) as [c|] eqn:Hc; [|done].
  pose proof Hc as [Hpk _]%get_conversation_of_pk.
  intros [= <- <-].
  change (get_conversation_of user cid (set_messages ?t d))
    with (get_conversation_of user cid d).
  rewrite Hc. cbn [messages set_messages].
  rewrite count_unread_after, update_is_read_twice. split; [done|].
  intros c' Hc'. unfold unread_count_for. cbn [messages set_messages].
  rewrite Hc', Hpk. split; [done|]. apply count_unread_after.
Qed.

Lemma latest_snoc (l : list Message) m :
  Forall (λ m0, created_at m0 < created_at m) l → latest (l ++ [m]) = Some m.
Proof.
  induction 1 as [|x l Hx _ IH]; [done|].
  cbn [app latest]. rewrite IH. by rewrite bool_decide_eq_true_2.
Qed.

(** X9. After a successful send at a time later than the messages the
    conversation holds, the new message is the conversation's
    [last_message]; the unread count of every user other than the sender
    grows by one and the sender's own stays. *)
Theorem sent_message_is_last_and_unread (user cid : Z) (submitted : text)
    (now : Z) (d : DB) (m : Message) (d' : DB) (c : Conversation) :
  send_message user cid (Some submitted) now d = (Ok 201 m, d') →
  conv_pk c = cid →
  Forall (λ m0, conversation m0 = cid → created_at m0 < now) (messages d) →
  last_message c d' = Some m
  ∧ ∀ reader, unread_count_for c reader d'
      = (unread_count_for c reader d
         + if bool_decide (reader = user) then 0 else 1)%nat.
Proof.
  intros Hsent Hc Hold.
  destruct (send_message_stored _ _ _ _ _ _ _ Hsent) as (raw & _ & Hm & _).
  assert (conversation m = cid ∧ sender m = user ∧ is_read m = false
          ∧ created_at m = now) as (Hcid & Hsender & Hread & Hnow).
  { revert Hsent. unfold send_message.
    destruct (get_conversation_of user cid d) as [c0|] eqn:Hc0; [|done].
    change (Some submitted ≫= char_field 2000 false)
      with (char_field 2000 false submitted).
    destruct (char_field 2000 false submitted) as [content|]; [|done].
    apply get_conversation_of_pk in Hc0 as [Hpk _].
    pose proof (create_message_stored (conv_pk c0) user content now d) as Hs.
    assert (created_at (create_message (conv_pk c0) user content now d).1 = now)
      as Hat by reflexivity.
    destruct (create_message (conv_pk c0) user content now d) as [m1 d1].
    destruct Hs as (_ & _ & Hr & _ & Hconv & Hsend).
    intros [= <- <-]. cbn [fst] in Hat. by rewrite Hconv. }
  split.
  - unfold last_message. rewrite Hm, filter_app, Hc.
    rewrite (filter_cons _ m), decide_True by done. cbn [filter list_filter].
    apply latest_snoc. apply Forall_forall. intros m0 Hm0.
    apply list_elem_of_filter in Hm0 as [Hconv Hin].
    rewrite Hnow. by apply (proj1 (Forall_forall _ _) Hold).
  - intros reader. unfold unread_count_for. rewrite Hm, filter_app, length_app.
    f_equal. rewrite (filter_cons _ m), Hc.
    assert (unread_from_others cid reader m
            = negb (bool_decide (sender m = reader))) as Hu.
    { unfold unread_from_others.
      by rewrite Hread, (bool_decide_eq_true_2 (conversation m = cid)). }
    rewrite Hsender in Hu.
    destruct (decide (user = reader)) as [->|Hne].
    + rewrite bool_decide_eq_true_2 in Hu by done.
      rewrite decide_False by (rewrite Hu; done).
      by rewrite bool_decide_eq_true_2.
    + rewrite bool_decide_eq_false_2 in Hu by done.
      rewrite decide_True by done.
      by rewrite (bool_decide_eq_false_2 (reader = user)) by congruence.
Qed.

End SendAndRead.

(** ** Frames, disconnects and read receipts on the chat channel *)

Section ChatFrames.
Import Re Accounts Messaging Moderation MessagingViews Consumers.
Context `{Runtime}.

Lemma lstrip_blank (s : text) :
  lstrip s = [] ↔ Forall (λ c, is_space c = true) s.
Proof.
  induction s as [|c s IH]; [done|]. cbn [lstrip].
  destruct (is_space c) eqn:Hc.
  - rewrite IH. split; [by constructor|by intros [_ ?]%Forall_cons].
  - split; [done|]. intros [Hc' _]%Forall_cons. congruence.
Qed.

Lemma lstrip_head (s : text) c rest :
  lstrip s = c :: rest → is_space c = false.
Proof.
  induction s as [|x s IH]; [done|]. cbn [lstrip].
  destruct (is_space x) eqn:Hx; [done|]. by intros [= <- _].
Qed.

Lemma lstrip_suffix (s : text) : lstrip s `suffix_of` s.
Proof.
  induction s as [|x s IH]; [done|]. cbn [lstrip].
  destruct (is_space x); [by apply suffix_cons_r|done].
Qed.

(** [str.strip] gives the empty string exactly on white space. *)
Lemma strip_blank (s : text) :
  strip s = [] ↔ Forall (λ c, is_space c = true) s.
Proof.
  unfold strip. split.
  - intros Hs. apply lstrip_blank.
    destruct (lstrip s) as [|c rest] eqn:Hl; [done|].
    apply (f_equal (@rev N)) in Hs. rewrite rev_involutive in Hs.
    change (rev []) with (@nil N) in Hs.
    apply lstrip_blank, List.Forall_rev in Hs. rewrite rev_involutive in Hs.
    apply Forall_cons in Hs as [Hc _]. apply lstrip_head in Hl. congruence.
  - intros Hs%lstrip_blank. by rewrite Hs.
Qed.

(** X10. A frame that is not JSON, a frame of an unknown type, and a chat
    message whose content is absent or only white space leave the whole
    system as it is: nothing is stored and nothing is sent to anyone. *)
Theorem ignored_frames_change_nothing (w : World) (channel : string)
    (data : Payload) (now : Z) :
  ignored data → step w (ws_receive channel data now) = w.
Proof.
  intros Hdata. cbn [step].
  destruct (consumers w !! channel) as [c|]; [|done].
  destruct (state c); [|done]. destruct (user c) as [| |u]; [done..|].
  destruct data as [|content| | |]; try done. cbn [receive].
  cbn [ignored] in Hdata. apply strip_blank in Hdata. by rewrite Hdata.
Qed.

Lemma one_room_start d : one_room (start d).
Proof.
  intros g channel. unfold members. cbn. rewrite lookup_empty. cbn.
  intros []%elem_of_empty.
Qed.

Lemma one_room_group_send g e w : one_room w → one_room (group_send g e w).
Proof.
  intros Hw g' channel Hin. destruct (Hw g' channel Hin) as (c & Hc & ->).
  exists (delivered g e w channel c). rewrite group_send_lookup, Hc.
  split; [done|]. by destruct (delivered_state g e w channel c) as (_ & -> & _).
Qed.

Lemma one_room_closed channel c w :
  one_room w → consumers w !! channel = Some c →
  one_room (set_consumers (<[ channel := set_state Closed c ]> (consumers w)) w).
Proof.
  intros Hw Hc g ch Hin. destruct (Hw g ch Hin) as (c' & Hc' & ->).
  cbn. destruct (decide (channel = ch)) as [->|Hne].
  - rewrite lookup_insert_eq. exists (set_state Closed c).
    split; [done|]. cbn. congruence.
  - rewrite lookup_insert_ne by done. by exists c'.
Qed.

Lemma one_room_step w i : one_room w → one_room (step w i).
Proof.
  intros Hw. destruct i as [channel u cid | channel data now | channel | f];
    cbn [step].
  - destruct (consumers w !! channel) eqn:Hnone; [done|].
    assert (∀ c0, one_room (set_consumers (<[ channel := c0 ]> (consumers w)) w))
      as Hfresh.
    { intros c0 g ch Hin. destruct (Hw g ch Hin) as (c' & Hc' & ->).
      exists c'. cbn. rewrite lookup_insert_ne by congruence. done. }
    unfold connect. destruct u as [| |row]; try done.
    destruct (check_participant row cid (db w)); [|done].
    intros g ch. cbn [consumers set_consumers].
    change (members g (set_consumers _ ?w')) with (members g w').
    rewrite members_group_add.
    destruct (decide (channel = ch)) as [->|Hne].
    + rewrite lookup_insert_eq. intros Hin. eexists. split; [done|]. cbn.
      destruct (decide _) as [<-|]; [done|].
      destruct (Hw g ch Hin) as (c' & Hc' & _). congruence.
    + rewrite lookup_insert_ne by done. intros Hin. apply Hw.
      destruct (decide _); [|done].
      apply elem_of_union in Hin as [Hin%elem_of_singleton|Hin]; done.
  - destruct (consumers w !! channel) as [c|] eqn:Hc; [|done].
    destruct (state c) eqn:Hs; [|done].
    destruct (user c) as [| |u] eqn:Hu; try done.
    unfold receive. destruct data as [|content|typing| |]; try done.
    + destruct (strip _); [done|].
      destruct (save_message _ _ _ _ _) as [[md d]|].
      * by apply one_room_group_send.
      * by apply one_room_closed.
    + by apply one_room_group_send.
    + destruct (ws_mark_messages_read _ _ _) as [d|].
      * by apply one_room_group_send.
      * by apply one_room_closed.
  - destruct (consumers w !! channel) as [c|] eqn:Hc; [|done].
    unfold disconnect. intros g ch. cbn [consumers set_consumers].
    change (members g (set_consumers _ ?w')) with (members g w').
    rewrite members_group_discard. intros Hin.
    assert (ch ∈ members g w) as Hin'.
    { destruct (decide _); [|done]. by apply elem_of_difference in Hin as [? _]. }
    destruct (Hw g ch Hin') as (c' & Hc' & ->).
    destruct (decide (channel = ch)) as [->|Hne].
    + rewrite lookup_insert_eq. eexists. split; [done|]. cbn. congruence.
    + rewrite lookup_insert_ne by done. by exists c'.
  - done.
Qed.

Lemma one_room_run inputs w : one_room w → one_room (run w inputs).
Proof.
  revert w. induction inputs as [|i inputs IH]; intros w Hw; [done|].
  cbn. apply IH. by apply one_room_step.
Qed.

Lemma retired_group_send channel frames g e w :
  retired channel frames w → retired channel frames (group_send g e w).
Proof.
  intros [(c & Hc & Hs & Hsent) Hg]. split; [|done].
  exists c. rewrite group_send_lookup, Hc. cbn.
  by rewrite delivered_closed.
Qed.

Lemma retired_other channel frames ch c' w :
  ch ≠ channel → retired channel frames w →
  retired channel frames (set_consumers (<[ ch := c' ]> (consumers w)) w).
Proof.
  intros Hne [(c & Hc & Hs & Hsent) Hg]. split; [|done].
  exists c. cbn. by rewrite lookup_insert_ne.
Qed.

Lemma retired_step channel frames w i :
  retired channel frames w → retired channel frames (step w i).
Proof.
  intros Hout. pose proof Hout as [(c & Hc & Hs & Hsent) Hg].
  destruct i as [ch u cid | ch data now | ch | f]; cbn [step].
  - destruct (consumers w !! ch) eqn:Hch; [done|].
    assert (ch ≠ channel) as Hne by congruence.
    unfold connect. destruct u as [| |row]; try by apply retired_other.
    destruct (check_participant row cid (db w)); [|by apply retired_other].
    apply retired_other; [done|]. split; [by exists c|].
    intros g. rewrite members_group_add. destruct (decide _); [|done].
    intros [Hin%elem_of_singleton|Hin]%elem_of_union; [done|by apply (Hg g)].
  - destruct (consumers w !! ch) as [c'|] eqn:Hch; [|done].
    destruct (state c') eqn:Hs'; [|done].
    assert (ch ≠ channel) as Hne by congruence.
    destruct (user c') as [| |u]; try done.
    unfold receive. destruct data as [|content|typing| |]; try done.
    + destruct (strip _); [done|].
      destruct (save_message _ _ _ _ _) as [[md d]|].
      * by apply retired_group_send.
      * by apply retired_other.
    + by apply retired_group_send.
    + destruct (ws_mark_messages_read _ _ _) as [d|].
      * by apply retired_group_send.
      * by apply retired_other.
  - destruct (consumers w !! ch) as [c'|] eqn:Hch; [|done].
    unfold disconnect. split.
    + cbn [consumers set_consumers group_discard set_groups].
      destruct (decide (ch = channel)) as [->|Hne].
      * rewrite lookup_insert_eq. exists (set_state Closed c').
        assert (c' = c) as -> by congruence. done.
      * rewrite lookup_insert_ne by done. by exists c.
    + intros g.
      change (members g (set_consumers _ ?w')) with (members g w').
      rewrite members_group_discard. destruct (decide _); [|done].
      intros [Hin _]%elem_of_difference. by apply (Hg g).
  - done.
Qed.

Lemma retired_run channel frames inputs w :
  retired channel frames w → retired channel frames (run w inputs).
Proof.
  revert w. induction inputs as [|i inputs IH]; intros w Hw; [done|].
  cbn. apply IH. by apply retired_step.
Qed.

(** X11. A disconnect is final.  Once [disconnect] has run for a
    connection of a running chat system, whatever happens afterwards the
    consumer stays closed, its channel is in no broadcast group, and it
    has been sent exactly the frames it had been sent when it
    disconnected. *)
Theorem disconnect_is_final (d0 : DB) (before after : list Input)
    (channel : string) (c : Consumer) :
  let w0 := run (start d0) before in
  consumers w0 !! channel = Some c →
  let w := run w0 (ws_disconnect channel :: after) in
  (∃ c', consumers w !! channel = Some c' ∧ state c' = Closed
     ∧ sent c' = sent c)
  ∧ ∀ g, channel ∉ members g w.
Proof.
  intros w0 Hc w.
  assert (one_room w0) as Hroom by apply one_room_run, one_room_start.
  assert (retired channel (sent c) (step w0 (ws_disconnect channel))) as Hret.
  { cbn [step]. rewrite Hc. unfold disconnect. split.
    - exists (set_state Closed c). cbn. by rewrite lookup_insert_eq.
    - intros g.
      change (members g (set_consumers _ ?w')) with (members g w').
      rewrite members_group_discard. destruct (decide _) as [<-|Hne].
      + intros [_ Hout]%elem_of_difference. apply Hout. by apply elem_of_singleton.
      + intros Hin. destruct (Hroom g channel Hin) as (c' & Hc' & ->).
        congruence. }
  subst w. cbn [run foldl]. by apply retired_run.
Qed.

(** X12. When a joined consumer of user [u] sends a [read] frame and the
    conversation exists, the store becomes the one in which the
    conversation's messages from others are marked read, so that [u] has
    no unread message left there; the conversations are untouched; and
    every joined consumer of the room, the reporting one included, is sent
    one read receipt carrying [u]'s id. *)
Theorem read_receipt_reaches_the_room (d0 : DB) (inputs : list Input)
    (channel : string) (c : Consumer) (u : User) (now : Z) (d' : DB) :
  let w := run (start d0) inputs in
  consumers w !! channel = Some c → state c = Joined →
  user c = authenticated u →
  ws_mark_messages_read u (conversation_id c) (db w) = Some d' →
  let room := room_group_name (conversation_id c) in
  let w' := step w (ws_receive channel read_payload now) in
  db w' = d'
  ∧ Forall2 (read_marked (conversation_id c) (pk u))
      (messages (db w)) (messages d')
  ∧ count_unread (conversation_id c) (pk u) (messages d') = 0%nat
  ∧ conversations d' = conversations (db w)
  ∧ (∀ ch c', consumers w !! ch = Some c' →
       ∃ c'', consumers w' !! ch = Some c''
         ∧ sent c'' = sent c' ++
             if bool_decide (ch ∈ members room w ∧ state c' = Joined)
             then [frame_read (pk u)] else [])
  ∧ ∃ c'', consumers w' !! channel = Some c''
      ∧ sent c'' = sent c ++ [frame_read (pk u)].
Proof.
  intros w Hc Hjoined Hu Hmark room w'.
  assert (well_formed w) as [_ Hj] by apply well_formed_run, well_formed_start.
  destruct (Hj _ _ Hc Hjoined) as [Hin _]. fold room in Hin.
  assert (d' = set_messages
                 (update_is_read (conversation_id c) (pk u) (messages (db w)))
                 (db w)) as Hd'.
  { revert Hmark. unfold ws_mark_messages_read.
    destruct (head _) as [conv|] eqn:Hconv; [|done].
    apply head_filter_pk in Hconv as ->. by intros [= <-]. }
  assert (∀ ch c', consumers w !! ch = Some c' →
            ∃ c'', consumers w' !! ch = Some c''
              ∧ sent c'' = sent c' ++
                  if bool_decide (ch ∈ members room w ∧ state c' = Joined)
                  then [frame_read (pk u)] else []) as Hall.
  { intros ch c' Hc'. subst w'. cbn [step]. rewrite Hc, Hjoined, Hu.
    cbn [receive]. rewrite Hmark, group_send_lookup. cbn. rewrite Hc'. cbn.
    eexists. split; [done|]. by rewrite delivered_sent. }
  split_and!.
  - subst w'. cbn [step]. rewrite Hc, Hjoined, Hu. cbn [receive].
    by rewrite Hmark.
  - rewrite Hd'. apply update_is_read_marked.
  - rewrite Hd'. apply count_unread_after.
  - by rewrite Hd'.
  - exact Hall.
  - destruct (Hall _ _ Hc) as (c'' & Hc'' & Hsent). exists c''.
    split; [done|]. rewrite Hsent. by rewrite bool_decide_eq_true_2.
Qed.

End ChatFrames.

(** ** The token of the query string *)

Section QueryStringToken.
Import Re Accounts Messaging Moderation MessagingViews Consumers Middleware.
Context `{Runtime}.
Variable access_token : text → option Z.

Lemma connect_joined channel u cid w c :
  consumers (connect channel u cid w) !! channel = Some c → state c = Joined →
  ∃ row, u = authenticated row ∧ user c = u
    ∧ check_participant row cid (db w) = true.
Proof.
  unfold connect. destruct u as [| |row].
  - cbn. rewrite lookup_insert_eq. by intros [= <-].
  - cbn. rewrite lookup_insert_eq. by intros [= <-].
  - destruct (check_participant row cid (db w)) eqn:Hp.
    + cbn. rewrite lookup_insert_eq. intros [= <-] _. by exists row.
    + cbn. rewrite lookup_insert_eq. by intros [= <-].
Qed.

(** X13. The identity the middleware stores and the consumer checks: a
    connection on a new channel is joined only if the query string has a
    [token] parameter that is not empty, the token library accepts it and
    names the id of a stored user, and that user is a participant of the
    conversation.  The consumer then speaks for that user. *)
Theorem socket_joins_only_with_valid_token (d0 : DB) (before : list Input)
    (channel : string) (query_string : text) (cid : Z) (u : ScopeUser)
    (c : Consumer) :
  let w0 := run (start d0) before in
  consumers w0 !! channel = None →
  scope_user access_token query_string (db w0) = Some u →
  let w := step w0 (ws_connect channel u cid) in
  consumers w !! channel = Some c → state c = Joined →
  ∃ params token row,
    query_params query_string = Some params
    ∧ dict_get (str "token") params = Some token ∧ token ≠ []
    ∧ access_token token = Some (pk row) ∧ row ∈ users (db w0)
    ∧ user c = authenticated row
    ∧ ∃ conv, conv ∈ conversations (db w0) ∧ conv_pk conv = cid
        ∧ pk row ∈ participants conv.
Proof.
  intros w0 Hnew Hscope w Hc Hjoined. subst w. cbn [step] in Hc.
  rewrite Hnew in Hc.
  destruct (connect_joined _ _ _ _ _ Hc Hjoined) as (row & -> & Hu & Hp).
  revert Hscope. unfold scope_user.
  destruct (query_params query_string) as [params|] eqn:Hparams; [|done].
  destruct (dict_get (str "token") params) as [[|ch token]|] eqn:Hget;
    [done| |done].
  unfold get_user.
  destruct (access_token (ch :: token)) as [uid|] eqn:Htoken; [|done].
  destruct (head _) as [row'|] eqn:Hrow; [|done]. intros [= ->].
  apply head_Some_elem_of, list_elem_of_filter in Hrow as [<- Hin].
  exists params, (ch :: token), row. split_and!; try done.
  apply bool_decide_eq_true, Exists_exists in Hp as (conv & Hconv & Hpk & Hpart).
  by exists conv.
Qed.

Lemma split_on_length sep (s : text) : (1 ≤ length (split_on sep s))%nat.
Proof.
  induction s as [|c s IH]; cbn [split_on]; [done|].
  destruct (c =? sep)%N; [cbn; lia|].
  destruct (split_on sep s); cbn in *; lia.
Qed.

Lemma split_on_absent sep (s : text) : sep ∉ s → split_on sep s = [s].
Proof.
  induction s as [|c s IH]; [done|]. intros Hs. cbn [split_on].
  destruct (N.eqb_spec c sep) as [->|Hne].
  - destruct Hs. by left.
  - rewrite IH; [done|]. intros Hin. apply Hs. by right.
Qed.

Lemma split_on_present sep (s : text) :
  sep ∈ s → (2 ≤ length (split_on sep s))%nat.
Proof.
  induction s as [|c s IH]; [by intros ?%elem_of_nil|]. cbn [split_on].
  destruct (N.eqb_spec c sep) as [->|Hne].
  - intros _. pose proof (split_on_length sep s). cbn. lia.
  - intros [?|Hin]%elem_of_cons; [done|]. specialize (IH Hin).
    destruct (split_on sep s); cbn in *; lia.
Qed.

Lemma to_item_Some (pieces : list text) :
  is_Some (to_item pieces) ↔ length pieces = 2%nat.
Proof.
  destruct pieces as [|k [|v [|x rest]]]; cbn; split;
    try done; try by intros [? [=]].
Qed.

(** X14. Building the dictionary of query parameters raises, so that the
    middleware stores no identity at all, exactly when some parameter
    between ampersands holds more than one equals sign; in every other
    case the middleware stores an identity. *)
Theorem query_parameter_with_two_equals_raises (query_string : text) (d : DB) :
  scope_user access_token query_string d = None
  ↔ Exists (λ param, (3 ≤ length (split_on 61 param))%nat)
      (split_on 38 query_string).
Proof.
  unfold scope_user, query_params.
  set (params := filter (λ param, 61%N ∈ param) (split_on 38 query_string)).
  assert (mapM (λ param, to_item (split_on 61 param)) params = None
          ↔ Exists (λ param, (3 ≤ length (split_on 61 param))%nat)
              (split_on 38 query_string)) as <-.
  { rewrite eq_None_not_Some, mapM_is_Some, <- Exists_Forall_neg
      by (intros x; unfold compose; destruct (to_item _);
          [left; eauto | right; by intros [? ?]]).
    rewrite !Exists_exists. split.
    - intros (param & Hin & Hbad).
      apply list_elem_of_filter in Hin as [Heq Hin].
      exists param. split; [done|]. apply split_on_present in Heq.
      unfold compose in Hbad. rewrite to_item_Some in Hbad. lia.
    - intros (param & Hin & Hlen). exists param. split.
      + apply list_elem_of_filter. split; [|done].
        destruct (decide (61%N ∈ param)) as [|Hno]; [done|].
        rewrite (split_on_absent _ _ Hno) in Hlen. cbn in Hlen. lia.
      + unfold compose. rewrite to_item_Some. lia. }
  by destruct (mapM _ params).
Qed.

End QueryStringToken.

(** ** Activities: answering applications, saving, deleting *)

Section ActivityRequests.
Import Activities ActivityViews ActivityLifecycle.

Lemma get_object_stored user now key db a :
  get_object user now key db = Some a →
  a ∈ activities db ∧ pk a = key ∧ is_active a = true ∧ now ≤ start_time a.
Proof.
  intros Ha%head_Some_elem_of. apply list_elem_of_filter in Ha as [Hpk Ha].
  apply list_elem_of_filter in Ha as [(Hactive & Hstart & _) Hin]. done.
Qed.

Lemma same_key_same_row (table : list Activity) a b :
  NoDup (map pk table) → a ∈ table → b ∈ table → pk a = pk b → a = b.
Proof.
  induction table as [|x table IH]; [by intros _ ?%elem_of_nil|].
  cbn [map]. intros [Hx Hnd]%NoDup_cons Ha Hb Hpk.
  assert (∀ y, y ∈ table → pk y ≠ pk x) as Hfresh.
  { intros y Hy Heq. apply Hx. rewrite <- Heq.
    apply (list_elem_of_fmap_2 pk), Hy. }
  apply elem_of_cons in Ha as [->|Ha], Hb as [->|Hb]; [done| | |by apply IH].
  - by destruct (Hfresh b Hb).
  - by destruct (Hfresh a Ha).
Qed.

(** What an answer does to the store, path by path. *)
Lemma respond_to_application_cases user key participation_id action now db :
  let answer := respond_to_application user key participation_id action now db in
  (∃ code, answer = (Err code, db) ∧ (code = 404 ∨ code = 403 ∨ code = 400))
  ∨ ∃ activity p,
      resolves user key participation_id now db activity p
      ∧ ((action = "reject"%string
          ∧ answer = (Ok 200 (respond rejected now p),
                      set_participations
                        (save_participation (respond rejected now p)
                           (participations db)) db))
         ∨ (action = "approve"%string
            ∧ group_member_count p ≤ spots_left activity
            ∧ answer = let '(p', _, db') := approve now p activity db in
                       (Ok 200 p', db'))).
Proof.
  cbn zeta. unfold respond_to_application, resolves.
  destruct (get_object user now key db) as [activity|] eqn:Hobj;
    [|left; exists 404; split; [done|by left]].
  case_bool_decide as Hcreator; [left; exists 403; split; [done|by right; left]|].
  destruct (head _) as [p|] eqn:Hp; [|left; exists 404; split; [done|by left]].
  assert (creator activity = user) as Hc.
  { by destruct (decide (creator activity = user)). }
  unfold validate_action.
  case_bool_decide as Happrove.
  - case_bool_decide as Hspots; [left; exists 400; split; [done|by right; right]|].
    right. exists activity, p. split; [done|]. right. split_and!; [done|lia|done].
  - case_bool_decide as Hreject;
      [|left; exists 400; split; [done|by right; right]].
    right. exists activity, p. split; [done|]. by left.
Qed.

(** X15. Answering an application never overbooks.  In a store whose
    activity keys are unique and in which no activity holds more
    participants than its maximum, every answer (whatever the action and
    whatever the response) leaves a store in which this is still so, with
    the same keys. *)
Theorem approval_never_overbooks (user key participation_id : Z)
    (action : string) (now : Z) (db : DB)
    (resp : Response ActivityParticipation) (db' : DB) :
  NoDup (map pk (activities db)) →
  Forall (λ a, current_participants a ≤ max_participants a) (activities db) →
  respond_to_application user key participation_id action now db = (resp, db') →
  Forall (λ a, current_participants a ≤ max_participants a) (activities db')
  ∧ map pk (activities db') = map pk (activities db).
Proof.
  intros Hnd Hok.
  destruct (respond_to_application_cases user key participation_id action now db)
    as [(code & -> & _)|(activity & p & (Hobj & _ & _) & Hcase)].
  { by intros [= _ <-]. }
  destruct Hcase as [(_ & ->)|(_ & Hspots & ->)].
  { by intros [= _ <-]. }
  rewrite approve_effect. case_bool_decide; [|by intros [= _ <-]].
  intros [= _ <-]. cbn [activities set_activities].
  apply get_object_stored in Hobj as (Hin & _).
  split.
  - apply Forall_fmap, Forall_forall. intros row Hrow. cbn.
    case_bool_decide as Hpk; [|by apply (proj1 (Forall_forall _ _) Hok)].
    assert (row = activity) as -> by by apply (same_key_same_row (activities db)).
    cbn. pose proof (proj1 (Forall_forall _ _) Hok _ Hin) as Hle. cbn in Hle.
    unfold spots_left in Hspots. lia.
  - rewrite map_map. apply map_ext. intros row. by case_bool_decide.
Qed.

(** X16. [respond_to_application] answers 404, 403 or 400 without touching
    the store, or 200.  It answers 200 only to the creator of a stored
    activity that is not deleted and has not started, for an application
    to that activity, and the application returned carries the status the
    action asked for.  A rejection never changes the activity table, so
    rejecting an application that had been approved leaves the participant
    counter where the approval put it. *)
Theorem respond_guards (user key participation_id : Z) (action : string)
    (now : Z) (db : DB) (resp : Response ActivityParticipation) (db' : DB) :
  respond_to_application user key participation_id action now db = (resp, db') →
  match resp with
  | Err code => db' = db ∧ (code = 404 ∨ code = 403 ∨ code = 400)
  | Ok code p' =>
    code = 200
    ∧ (∃ a, a ∈ activities db ∧ pk a = key ∧ creator a = user
         ∧ is_active a = true ∧ now ≤ start_time a)
    ∧ p_activity p' = key ∧ p_pk p' = participation_id
    ∧ ((action = "approve"%string ∧ p_status p' = approved)
       ∨ (action = "reject"%string ∧ p_status p' = rejected
          ∧ responded_at p' = Some now
          ∧ activities db' = activities db))
    ∧ users db' = users db ∧ conversations db' = conversations db
    ∧ messages db' = messages db
  end.
Proof.
  destruct (respond_to_application_cases user key participation_id action now db)
    as [(code & -> & Hcode)|(activity & p & (Hobj & Hcreator & Hp) & Hcase)].
  { by intros [= <- <-]. }
  apply get_object_stored in Hobj as (Hin & Hkey & Hactive & Hstart).
  apply head_Some_elem_of, list_elem_of_filter in Hp as [[Hact Hpk] _].
  assert (∃ a, a ∈ activities db ∧ pk a = key ∧ creator a = user
            ∧ is_active a = true ∧ now ≤ start_time a) as Hex
    by by exists activity.
  destruct Hcase as [(-> & ->)|(-> & Hspots & ->)].
  - intros [= <- <-]. cbn. rewrite Hact, Hkey. split_and!; try done.
    right. done.
  - rewrite approve_effect. case_bool_decide as Hnew.
    + intros [= <- <-]. cbn. rewrite Hact, Hkey. split_and!; try done.
      by left.
    + intros [= <- <-]. rewrite Hact, Hkey. split_and!; try done.
      left. split; [done|]. by destruct (decide (p_status p = approved)).
Qed.





Lemma destroyed_rows now instance table :
  Forall2 (λ row row', pk row' = pk row
             ∧ if bool_decide (pk row = pk instance)
               then is_active row' = false else row' = row)
    table (save None now (set_is_active false instance) table).2.
Proof.
  cbn [save snd]. unfold update_row.
  apply Forall2_fmap_r, Forall_Forall2_diag, Forall_forall. intros row _.
  pose proof (auto_update_status_fields now (set_is_active false instance)) as Hf.
  cbn zeta in Hf. destruct Hf as (Hpk & _ & _ & _ & _ & _ & Hactive).
  unfold compose. rewrite Hpk. cbn [set_is_active pk].
  case_bool_decide as Hrow; [|done]. cbn [written_row].
  by rewrite Hpk, Hactive.
Qed.

(** X18. A deleted activity is out of reach.  After a [destroy] that is
    answered with 204, every row with the key is inactive and the other
    rows are as before; for every user and at every time the key resolves
    to no activity, so answering an application to it and deleting it
    again both give 404 and change nothing. *)
Theorem destroyed_activity_is_unreachable (user key now : Z) (db db' : DB) :
  destroy user key now db = (Ok 204 (), db') →
  Forall2 (λ row row', pk row' = pk row
             ∧ if bool_decide (pk row = key)
               then is_active row' = false else row' = row)
    (activities db) (activities db')
  ∧ participations db' = participations db
  ∧ (∀ user' now', get_object user' now' key db' = None)
  ∧ (∀ user' participation_id action now',
       respond_to_application user' key participation_id action now' db'
       = (Err 404, db'))
  ∧ (∀ user' now', destroy user' key now' db' = (Err 404, db')).
Proof.
  unfold destroy at 1.
  destruct (get_object user now key db) as [instance|] eqn:Hobj; [|done].
  apply get_object_stored in Hobj as (_ & Hkey & _). intros [= <-].
  pose proof (destroyed_rows now instance (activities db)) as Hrows.
  rewrite Hkey in Hrows.
  assert (∀ user' now', get_object user' now' key
                          (perform_destroy now instance db) = None) as Hnone.
  { intros user' now'.
    destruct (get_object user' now' key (perform_destroy now instance db))
      as [row'|] eqn:Hrow'; [|done].
    exfalso. apply get_object_stored in Hrow' as (Hin & Hpk & Hactive & _).
    unfold perform_destroy in Hin. cbn [activities set_activities] in Hin.
    apply list_elem_of_lookup in Hin as [i Hi].
    destruct (Forall2_lookup_r _ _ _ _ _ Hrows Hi) as (row & _ & Hpk' & Hrow).
    rewrite bool_decide_eq_true_2 in Hrow by congruence. congruence. }
  split_and!; try done.
  - intros user' participation_id action now'.
    unfold respond_to_application. by rewrite Hnone.
  - intros user' now'. unfold destroy. by rewrite Hnone.
Qed.

(** X19. [spots_left] is never negative, it is zero exactly when the
    activity [is_full], and below capacity it is the difference between
    the maximum and the counter. *)
Theorem spots_left_and_is_full (a : Activity) :
  0 ≤ spots_left a
  ∧ (spots_left a = 0 ↔ is_full a = true)
  ∧ (is_full a = false →
     0 < spots_left a
     ∧ current_participants a + spots_left a = max_participants a).
Proof.
  unfold spots_left, is_full. rewrite bool_decide_eq_true, bool_decide_eq_false.
  lia.
Qed.

End ActivityRequests.

(** ** Creating and reading conversations *)

Section ConversationRequests.
Import Re Accounts Messaging Moderation MessagingViews ConversationProperties.
Context `{Runtime}.

Lemma blocked_flat_blocks user db b :
  b ∈ blocked_users db → blocker b = user ∨ blocked b = user →
  blocker b ∈ blocked_flat user db ∧ blocked b ∈ blocked_flat user db.
Proof.
  intros Hb Hside. unfold blocked_flat.
  split; apply list_elem_of_In, in_flat_map; exists b;
    (split; [by apply list_elem_of_In, list_elem_of_filter|cbn; tauto]).
Qed.

(** What a request that creates a conversation leaves, path by path. *)
Lemma create_conversation_cases user d now db :
  let answer := create_conversation user d now db in
  (∃ code, answer = (Err code, db) ∧ (code = 400 ∨ code = 500))
  ∨ (∃ c partner, answer = (Ok 200 c, db)
       ∧ participant_ids d = [partner]
       ∧ c ∈ direct_with user partner db ∧ size (participants c) = 2%nat)
  ∨ (∃ c db' initial,
       answer = (Ok 201 c, db')
       ∧ validate_create d = Some initial
       ∧ ¬ Exists (λ pid, pid ∈ blocked_flat user db) (participant_ids d)
       ∧ conv_pk c = next_pk (map conv_pk (conversations db))
       ∧ participants c
         = {[ user ]} ∪ list_to_set
             (map pk (filter (λ u, pk u ∈ participant_ids d
                                   ∧ Accounts.is_active u = true) (users db)))
       ∧ last_message_at c = now
       ∧ conversations db' = conversations db ++ [c]
       ∧ messages db'
         = messages db
           ++ match initial with
              | [] => []
              | _ => [(create_message (conv_pk c) user initial now db).1]
              end).
Proof.
  cbn zeta. unfold create_conversation.
  destruct (validate_create d) as [initial|];
    [|left; exists 400; split; [done|by left]].
  case_bool_decide as Hblocked; [left; exists 400; split; [done|by left]|].
  set (existing := match participant_ids d with
                   | [partner] => _
                   | _ => None
                   end).
  destruct existing as [c|] eqn:Hexisting.
  - case_bool_decide as Hsize.
    + right; left. subst existing.
      destruct (participant_ids d) as [|partner [|? ?]]; [done| |done].
      destruct (negb _); [|done].
      apply first_latest_elem_of in Hexisting. by exists c, partner.
    + destruct (fk_holds _ db); [|left; exists 500; split; [done|by right]].
      right; right. eexists _, _, initial. split; [done|].
      split_and!; try done; destruct initial; try done.
      cbn [messages set_conversations]. by rewrite app_nil_r.
  - destruct (fk_holds _ db); [|left; exists 500; split; [done|by right]].
    right; right. eexists _, _, initial. split; [done|].
    split_and!; try done; destruct initial; try done.
    cbn [messages set_conversations]. by rewrite app_nil_r.
Qed.

(** X20. Who is in a conversation that [CreateConversationView.post]
    creates: the requesting user, and besides only stored, active users
    whose ids were submitted.  No block row of the store links the
    requesting user with another participant, in either direction.  The
    new row gets a key no stored conversation has and is appended to the
    conversations. *)
Theorem created_conversation_members (user : Z) (d : CreateConversationData)
    (now : Z) (db : DB) (c : Conversation) (db' : DB) :
  create_conversation user d now db = (Ok 201 c, db') →
  user ∈ participants c
  ∧ (∀ v, v ∈ participants c → v ≠ user →
       v ∈ participant_ids d
       ∧ (∃ row, row ∈ users db ∧ pk row = v ∧ Accounts.is_active row = true)
       ∧ ∀ b, b ∈ blocked_users db →
           ¬ (blocker b = user ∧ blocked b = v)
           ∧ ¬ (blocker b = v ∧ blocked b = user))
  ∧ (conv_pk c ∉ map conv_pk (conversations db))
  ∧ conversations db' = conversations db ++ [c].
Proof.
  destruct (create_conversation_cases user d now db)
    as [(code & -> & _)|[(c0 & partner & -> & _)
       |(c0 & db0 & initial & -> & _ & Hfree & Hpk & Hmembers & _ & Hconvs & _)]];
    [done..|].
  intros [= <- <-]. split_and!.
  - rewrite Hmembers. apply elem_of_union_l. by apply elem_of_singleton.
  - intros v Hv Hne. rewrite Hmembers in Hv.
    apply elem_of_union in Hv as [Hv%elem_of_singleton|Hv]; [done|].
    apply elem_of_list_to_set, list_elem_of_fmap in Hv as (row & -> & Hrow).
    apply list_elem_of_filter in Hrow as [[Hpid Hactive] Hrow].
    split_and!; [done|by exists row|].
    intros b Hb. split; intros [Hl Hr]; apply Hfree, Exists_exists;
      exists (pk row); (split; [done|]).
    + rewrite <- Hr. by apply blocked_flat_blocks; [|left].
    + rewrite <- Hl. by apply blocked_flat_blocks; [|right].
  - rewrite Hpk. apply next_pk_fresh.
  - done.
Qed.

(** X21. [CreateConversationView.post] answers 400 or 500 without touching
    the store, 200 with a stored direct conversation of exactly two
    participants that holds the requesting user and the one id submitted,
    again without touching the store, or 201.  On 201 one conversation is
    added and at most one message: none when the initial message is
    absent or blank, and otherwise one message in the new conversation
    from the requesting user. *)
Theorem create_conversation_answers (user : Z) (d : CreateConversationData)
    (now : Z) (db : DB) (resp : Response Conversation) (db' : DB) :
  create_conversation user d now db = (resp, db') →
  match resp with
  | Err code => db' = db ∧ (code = 400 ∨ code = 500)
  | Ok code c =>
    (code = 200 ∧ db' = db ∧ c ∈ conversations db
     ∧ conversation_type c = direct ∧ size (participants c) = 2%nat
     ∧ user ∈ participants c
     ∧ ∃ partner, participant_ids d = [partner] ∧ partner ∈ participants c)
    ∨ (code = 201
       ∧ length (conversations db') = S (length (conversations db))
       ∧ ((messages db' = messages db
           ∧ Forall (λ ch, is_space ch = true)
               (default [] (initial_message d)))
          ∨ ∃ m, messages db' = messages db ++ [m]
              ∧ conversation m = conv_pk c ∧ sender m = user
              ∧ initial_message d ≠ None))
  end.
Proof.
  destruct (create_conversation_cases user d now db)
    as [(code & -> & Hcode)|[(c0 & partner & -> & Hpids & Hc0 & Hsize)
       |(c0 & db0 & initial & -> & Hvalid & _ & _ & _ & _ & Hconvs & Hmsgs)]].
  - by intros [= <- <-].
  - intros [= <- <-]. left.
    apply list_elem_of_filter in Hc0 as [(Huser & Htype & Hpartner) Hc0].
    split_and!; try done. by exists partner.
  - intros [= <- <-]. right. split; [done|]. split.
    { rewrite Hconvs, length_app. cbn. lia. }
    revert Hvalid. unfold validate_create. case_bool_decide; [|done].
    destruct (initial_message d) as [raw|] eqn:Hraw.
    + intros Hfield. apply char_field_Some in Hfield as (-> & _ & _).
      destruct (strip raw) as [|ch rest] eqn:Hstrip.
      * left. rewrite app_nil_r in Hmsgs. split; [done|].
        by apply strip_blank.
      * right. eexists. split; [exact Hmsgs|]. done.
    + intros [= <-]. left. rewrite app_nil_r in Hmsgs. split; [done|].
      constructor.
Qed.

(** X22. [ConversationDetailView.retrieve] answers 404 to a user who is
    not a participant and changes nothing.  Otherwise it answers 200 with
    a stored conversation of the user and that conversation's messages as
    they are after marking: every message in the body that another user
    sent is read, no message is missing, and the user has no unread
    message left in the conversation. *)
Theorem detail_shows_messages_read (user key : Z) (db : DB)
    (resp : Response (Conversation * list Message)) (db' : DB) :
  retrieve user key db = (resp, db') →
  match resp with
  | Err code => code = 404 ∧ db' = db
  | Ok code (c, body) =>
    code = 200 ∧ c ∈ conversations db ∧ conv_pk c = key
    ∧ user ∈ participants c
    ∧ body = filter (λ m, conversation m = key) (messages db')
    ∧ Forall (λ m, sender m ≠ user → is_read m = true) body
    ∧ map msg_pk body
      = map msg_pk (filter (λ m, conversation m = key) (messages db))
    ∧ unread_count_for c user db' = 0%nat
    ∧ conversations db' = conversations db
  end.
Proof.
  unfold retrieve.
  destruct (head _) as [c|] eqn:Hc; [|by intros [= <- <-]].
  apply head_Some_elem_of, list_elem_of_filter in Hc as [Hpk Hc].
  apply list_elem_of_filter in Hc as [Huser Hc].
  intros [= <- <-]. rewrite Hpk. cbn [messages set_messages conversations].
  pose proof (update_is_read_marked key user (messages db)) as Hrows.
  split_and!; try done.
  - apply Forall_forall. intros m Hm Hsender.
    apply list_elem_of_filter in Hm as [Hconv Hm].
    apply list_elem_of_lookup in Hm as [i Hi].
    destruct (Forall2_lookup_r _ _ _ _ _ Hrows Hi) as (m0 & _ & Hmark).
    destruct Hmark as (_ & Hc0 & Hs0 & _ & _ & _ & _ & _ & Hread).
    apply Hread. right. split; congruence.
  - induction Hrows as [|m m' l l' Hm _ IH]; [done|].
    destruct Hm as (Hk & Hc0 & _). rewrite !filter_cons.
    rewrite Hc0. destruct (decide (conversation m = key)); [|done].
    cbn [map]. by rewrite Hk, IH.
  - unfold unread_count_for. cbn [messages set_messages]. rewrite Hpk.
    apply count_unread_after.
Qed.

End ConversationRequests.

(** ** The banned-word table *)

Section BannedWords.
Import Re Moderation.
Context `{Runtime}.

Lemma active_entries_filter table :
  active_entries (filter (λ b, is_active b = true) table) = active_entries table.
Proof.
  unfold active_entries. f_equal.
  induction table as [|b table IH]; [done|]. rewrite !filter_cons.
  destruct (decide (is_active b = true)) as [Hb|Hb]; [|done].
  by rewrite filter_cons, decide_True, IH.
Qed.

Lemma active_entries_inactive table :
  Forall (λ b, is_active b = false) table → active_entries table = [].
Proof.
  unfold active_entries. induction 1 as [|b table Hb _ IH]; [done|].
  rewrite filter_cons, decide_False by congruence. done.
Qed.

Lemma active_entries_app before b after :
  is_active b = true →
  active_entries (before ++ b :: after)
  = active_entries before ++ (word b, is_regex b) :: active_entries after.
Proof.
  intros Hb. unfold active_entries.
  by rewrite filter_app, filter_cons, decide_True, map_app.
Qed.

(** X23. Rows of the banned-word table that are not active never affect
    the result: the filter gives the same result on the table and on its
    active rows, and a table with no active row gives the result of a
    store that cannot be reached. *)
Theorem inactive_banned_words_are_ignored (table : list BannedWord)
    (input : option text) :
  filter_ugc_content (Some table) input
  = filter_ugc_content (Some (filter (λ b, is_active b = true) table)) input
  ∧ (Forall (λ b, is_active b = false) table →
     filter_ugc_content (Some table) input = filter_ugc_content None input).
Proof.
  unfold filter_ugc_content, banned_pass. split.
  - by rewrite active_entries_filter.
  - intros Hall. by rewrite active_entries_inactive.
Qed.

Lemma banned_loop_stops before w after st :
  (∀ s, re_search_i w s = None) →
  banned_loop (before ++ (w, true) :: after) st = banned_loop before st.
Proof.
  intros Hbad. revert st.
  induction before as [|[w0 regex] before IH]; intros st; cbn [app banned_loop].
  - by rewrite Hbad.
  - destruct regex.
    + destruct (re_search_i w0 st.1) as [[|]|]; [apply IH..|done].
    + destruct (contains _ _); apply IH.
Qed.

(** X24. A moderator pattern that the regex engine rejects ends the
    banned-word pass without an error: the filter gives the result of the
    rows before it, and no row after it is applied, whatever it holds. *)
Theorem malformed_pattern_ends_banned_pass (before after : list BannedWord)
    (b : BannedWord) (input : option text) :
  is_active b = true → is_regex b = true →
  (∀ s, re_search_i (word b) s = None) →
  filter_ugc_content (Some (before ++ b :: after)) input
  = filter_ugc_content (Some before) input.
Proof.
  intros Hactive Hregex Hbad. destruct input as [[|c t]|]; [done| |done].
  unfold filter_ugc_content, banned_pass.
  rewrite (active_entries_app _ _ _ Hactive), Hregex.
  by rewrite (banned_loop_stops _ _ _ _ Hbad).
Qed.

Lemma banned_loop_words entries st :
  ∃ extra, (banned_loop entries st).2 = st.2 ++ extra
    ∧ Forall (λ v, ∃ e, e ∈ entries ∧ v = Build_Violation banned_word [e.1])
        extra.
Proof.
  revert st. induction entries as [|[w regex] entries IH]; intros st.
  { exists []. by rewrite app_nil_r. }
  assert (∀ st', ∃ extra, (banned_loop entries st').2 = st'.2 ++ extra
            ∧ Forall (λ v, ∃ e, e ∈ (w, regex) :: entries
                             ∧ v = Build_Violation banned_word [e.1]) extra)
    as Hrest.
  { intros st'. destruct (IH st') as (extra & Heq & Hall).
    exists extra. split; [done|]. eapply Forall_impl; [exact Hall|].
    intros v (e & He & ->). exists e. split; [by right|done]. }
  assert (∀ t', ∃ extra,
            (banned_loop entries
               (t', st.2 ++ [Build_Violation banned_word [w]])).2
            = st.2 ++ extra
            ∧ Forall (λ v, ∃ e, e ∈ (w, regex) :: entries
                             ∧ v = Build_Violation banned_word [e.1]) extra)
    as Hhit.
  { intros t'.
    destruct (Hrest (t', st.2 ++ [Build_Violation banned_word [w]]))
      as (extra & -> & Hall).
    cbn [snd]. eexists. rewrite <- app_assoc. split; [done|].
    constructor; [|done]. exists (w, regex). split; [by left|done]. }
  cbn [banned_loop]. destruct regex.
  - destruct (re_search_i w st.1) as [[|]|]; [apply Hhit|apply Hrest|].
    exists []. by rewrite app_nil_r.
  - destruct (contains _ _); [apply Hhit|apply Hrest].
Qed.

Lemma pii_passes_kind y : y ∈ pii_passes → pii_kind y.1.1 = true.
Proof.
  unfold pii_passes. rewrite !elem_of_app.
  intros [Hy|[Hy|Hy]].
  - by apply list_elem_of_fmap in Hy as (p & -> & _).
  - by apply list_elem_of_singleton in Hy as ->.
  - by apply list_elem_of_fmap in Hy as (p & -> & _).
Qed.

(** X25. Every [banned_word] violation the filter reports comes from the
    table: it names, as its only match, the word of an active row.  The
    violations of the other kinds stand before it in the list. *)
Theorem banned_violation_names_active_word (table : list BannedWord)
    (t : text) :
  ∃ earlier reported,
    violations (filter_ugc_content (Some table) (Some t)) = earlier ++ reported
    ∧ Forall (λ v, v_type v ≠ banned_word) earlier
    ∧ Forall (λ v, v_type v = banned_word
                   ∧ ∃ b, b ∈ table ∧ is_active b = true
                       ∧ v_matches v = [word b]) reported.
Proof.
  destruct (filter_final_state (Some table) t) as [[_ ->]| ->];
    [|by exists [], []].
  unfold final_state, banned_pass. rewrite pii_as_fold.
  destruct (banned_loop_words (active_entries table)
              (profanity_pass (foldl apply_pass (t, []) pii_passes)))
    as (reported & -> & Hreported).
  eexists _, reported. split; [done|]. split.
  - unfold profanity_pass.
    destruct (passes_extend pii_passes (t, [])) as (e1 & He1 & _ & Hkinds).
    assert (Forall (λ v, v_type v ≠ banned_word) e1) as Hpii.
    { eapply Forall_impl; [exact Hkinds|]. intros v (y & Hy & Hv).
      apply pii_passes_kind in Hy. rewrite <- Hv in Hy. by destruct (v_type v). }
    destruct (contains_profanity _); cbn [snd]; rewrite He1; cbn [snd app].
    + apply Forall_app. split; [done|]. by repeat constructor.
    + done.
  - eapply Forall_impl; [exact Hreported|]. intros v ([w regex] & He & ->).
    split; [done|]. unfold active_entries in He.
    apply list_elem_of_fmap in He as (b & [= -> _] & Hb).
    apply list_elem_of_filter in Hb as [Hactive Hb]. by exists b.
Qed.

End BannedWords.

(** ** Instances of the further properties *)

Section FurtherInstances.
Import Re Accounts Activities Messaging Moderation MessagingViews Consumers.
Import Middleware ConversationProperties ActivityViews ActivityLifecycle.
Import Examples Scenes.

(** An e-mail address sent by alice over the socket goes out flagged,
    under her display name. *)
Lemma broadcast_is_filtered_text_witness :
  ∃ md d',
    @save_message Plain.plain alice 1 (str "write to a.b@c.com") 20 chat_db
    = Some (md, d')
    ∧ md_is_filtered md = true ∧ md_sender_display_name md = str "Alice".
Proof.
  assert (∃ md d', @save_message Plain.plain alice 1 (str "write to a.b@c.com")
                     20 chat_db = Some (md, d')) as (md & d' & Hsaved).
  { vm_compute. eexists _, _. reflexivity. }
  exists md, d'. split; [exact Hsaved|].
  destruct (@broadcast_is_filtered_text Plain.plain alice 1 _ 20 chat_db md d'
              Hsaved) as (_ & Hflag & _ & Hname & _).
  split; [rewrite Hflag; vm_compute; reflexivity|].
  rewrite Hname. reflexivity.
Defined.

(** After the address is redacted the e-mail pattern finds nothing. *)
Lemma no_pattern_matches_after_redaction_witness :
  findall EMAIL_PATTERN
    (filtered_text
       (@filter_ugc_content Plain.plain (Some []) (Some (str "write to a.b@c.com"))))
  = [].
Proof.
  destruct (@no_pattern_matches_after_redaction Plain.plain (Some [])
              (str "write to a.b@c.com") (email, EMAIL_TOKEN, EMAIL_PATTERN))
    as [_ Hfiltered].
  - unfold pii_passes. apply elem_of_app. right. by left.
  - apply Hfiltered. vm_compute. repeat constructor.
Defined.

(** A mobile number written without separators. *)
Lemma ten_digits_are_reported_witness :
  is_clean (@filter_ugc_content Plain.plain (Some [])
              (Some (str "call 5321234567 now")))
  = false.
Proof.
  destruct (@ten_digits_are_reported Plain.plain (Some []) (str "call ")
              (str "5321234567") (str " now")) as [Hclean _].
  - repeat (constructor; [reflexivity|]). constructor.
  - reflexivity.
  - exact Hclean.
Defined.

(** A handle at the end of a sentence. *)
Lemma handle_is_never_clean_witness :
  is_clean (@filter_ugc_content Plain.plain (Some [])
              (Some (str "find me @alice_99")))
  = false.
Proof.
  apply (@handle_is_never_clean Plain.plain (Some []) (str "find me ")
           (str "alice_99") []).
  - repeat (constructor; [reflexivity|]). constructor.
  - cbn. lia.
Defined.

(** Alice's greeting at time 20 moves the conversation's timestamp. *)
Lemma send_touches_conversation_witness :
  ∃ m d', @send_message Plain.plain 1 1 (Some (str " hello ")) 20 chat_db
          = (Ok 201 m, d')
    ∧ conversations d' = [touch 20 chat_1_2].
Proof.
  assert (∃ m d', @send_message Plain.plain 1 1 (Some (str " hello ")) 20 chat_db
                  = (Ok 201 m, d')) as (m & d' & Hsent).
  { vm_compute. eexists _, _. reflexivity. }
  exists m, d'. split; [exact Hsent|].
  destruct (@send_touches_conversation Plain.plain 1 1 _ 20 chat_db m d' Hsent)
    as (c & Hc & Hrows & _).
  assert (get_conversation_of 1 1 chat_db = Some chat_1_2) as Hfound
    by (vm_compute; reflexivity).
  rewrite Hfound in Hc. injection Hc as <-.
  change (conversations chat_db) with [chat_1_2] in Hrows.
  apply Forall2_cons_inv_l in Hrows as (row' & rest & Hrow & Hrest & ->).
  apply Forall2_nil_inv_l in Hrest as ->.
  rewrite bool_decide_eq_true_2 in Hrow by reflexivity. by rewrite Hrow.
Defined.

(** Carol, who is not in the conversation, cannot write to it. *)
Lemma send_message_guards_witness :
  ∃ code, @send_message Plain.plain 3 1 (Some (str "hi")) 20 chat_db
          = (Err code, chat_db)
    ∧ (code = 404 ∨ code = 400).
Proof.
  assert (@send_message Plain.plain 3 1 (Some (str "hi")) 20 chat_db
          = (Err 404, chat_db)) as Hsent by (vm_compute; reflexivity).
  exists 404. split; [exact Hsent|].
  destruct (@send_message_guards Plain.plain 3 1 _ 20 chat_db _ _ Hsent)
    as [_ Hcode].
  exact Hcode.
Defined.

(** Alice marks bob's message read, twice. *)
Lemma mark_read_is_idempotent_witness :
  ∃ d1, mark_messages_read 1 1 bob_wrote = (Ok 200 1%nat, d1)
    ∧ mark_messages_read 1 1 d1 = (Ok 200 0%nat, d1).
Proof.
  assert (∃ d1, mark_messages_read 1 1 bob_wrote = (Ok 200 1%nat, d1))
    as (d1 & Hfirst).
  { vm_compute. eexists. reflexivity. }
  exists d1. split; [exact Hfirst|].
  by destruct (mark_read_is_idempotent 1 1 bob_wrote 1 d1 Hfirst) as [Hsecond _].
Defined.

(** Alice's first message is the last one, and unread for bob. *)
Lemma sent_message_is_last_and_unread_witness :
  ∃ m d', @send_message Plain.plain 1 1 (Some (str "hello")) 20 chat_db
          = (Ok 201 m, d')
    ∧ last_message chat_1_2 d' = Some m
    ∧ unread_count_for chat_1_2 2 d' = 1%nat
    ∧ unread_count_for chat_1_2 1 d' = 0%nat.
Proof.
  assert (∃ m d', @send_message Plain.plain 1 1 (Some (str "hello")) 20 chat_db
                  = (Ok 201 m, d')) as (m & d' & Hsent).
  { vm_compute. eexists _, _. reflexivity. }
  exists m, d'. split; [exact Hsent|].
  destruct (@sent_message_is_last_and_unread Plain.plain 1 1 _ 20 chat_db m d'
              chat_1_2 Hsent) as [Hlast Hunread].
  - reflexivity.
  - constructor.
  - split; [exact Hlast|]. split; [apply (Hunread 2)|apply (Hunread 1)].
Defined.

(** A chat frame of three spaces from alice. *)
Lemma ignored_frames_change_nothing_witness :
  let w := @run Plain.plain (start chat_db) both_connect in
  @step Plain.plain w
    (ws_receive "alice-1" (chat_message_payload (Some (str "   "))) 30)
  = w.
Proof.
  intros w. apply @ignored_frames_change_nothing.
  cbn. repeat (constructor; [reflexivity|]). constructor.
Defined.

(** Alice disconnects; what bob writes afterwards does not reach her. *)
Lemma disconnect_is_final_witness :
  let w :=
    @run Plain.plain (start chat_db)
      (both_connect
       ++ [ ws_disconnect "alice-1";
            ws_receive "bob-1" (chat_message_payload (Some (str "hi"))) 30 ]) in
  (∃ c, consumers w !! "alice-1"%string = Some c ∧ state c = Closed
     ∧ sent c = [])
  ∧ ∀ g, "alice-1"%string ∉ members g w.
Proof.
  apply (@disconnect_is_final Plain.plain chat_db both_connect
           [ ws_receive "bob-1" (chat_message_payload (Some (str "hi"))) 30 ]
           "alice-1" (Build_Consumer (authenticated alice) 1 Joined [])).
  vm_compute. reflexivity.
Defined.

(** Alice reports that she has read bob's message; her own connection
    gets the receipt as well. *)
Lemma read_receipt_reaches_the_room_witness :
  let w := @run Plain.plain (start bob_wrote) both_connect in
  let w' := @step Plain.plain w (ws_receive "alice-1" read_payload 30) in
  ∃ c, consumers w' !! "alice-1"%string = Some c ∧ sent c = [frame_read 1].
Proof.
  intros w w'.
  assert (∃ d', ws_mark_messages_read alice 1 (db w) = Some d') as (d' & Hd').
  { vm_compute. eexists. reflexivity. }
  destruct (@read_receipt_reaches_the_room Plain.plain bob_wrote both_connect
              "alice-1" (Build_Consumer (authenticated alice) 1 Joined [])
              alice 30 d') as (_ & _ & _ & _ & _ & Hown).
  - vm_compute. reflexivity.
  - reflexivity.
  - reflexivity.
  - exact Hd'.
  - exact Hown.
Defined.

(** Alice connects with the token the library accepts for her. *)
Lemma socket_joins_only_with_valid_token_witness :
  ∃ params token row,
    query_params (str "token=good") = Some params
    ∧ dict_get (str "token") params = Some token ∧ token ≠ []
    ∧ one_token token = Some (Accounts.pk row) ∧ row ∈ users chat_db
    ∧ authenticated alice = authenticated row
    ∧ ∃ conv, conv ∈ conversations chat_db ∧ conv_pk conv = 1
        ∧ Accounts.pk row ∈ participants conv.
Proof.
  apply (@socket_joins_only_with_valid_token Plain.plain one_token chat_db []
           "alice-1" (str "token=good") 1 (authenticated alice)
           (Build_Consumer (authenticated alice) 1 Joined [])).
  - vm_compute. reflexivity.
  - vm_compute. reflexivity.
  - vm_compute. reflexivity.
  - reflexivity.
Defined.

(** Alice approves bob's application for the last place. *)
Lemma approval_never_overbooks_witness :
  ∃ p' db',
    respond_to_application 1 7 13 "approve" 60 hike_db_alone = (Ok 200 p', db')
    ∧ Forall (λ a, current_participants a ≤ max_participants a) (activities db').
Proof.
  assert (∃ p' db', respond_to_application 1 7 13 "approve" 60 hike_db_alone
                    = (Ok 200 p', db')) as (p' & db' & Hanswer).
  { vm_compute. eexists _, _. reflexivity. }
  exists p', db'. split; [exact Hanswer|].
  destruct (approval_never_overbooks 1 7 13 "approve" 60 hike_db_alone
              (Ok 200 p') db') as [Hok _]; [| |exact Hanswer|exact Hok].
  - apply NoDup_singleton.
  - repeat constructor. vm_compute. discriminate.
Defined.

(** Bob cannot answer his own application: he did not create the hike. *)
Lemma respond_guards_witness :
  ∃ code, respond_to_application 2 7 11 "approve" 60 hike_db
          = (Err code, hike_db)
    ∧ (code = 404 ∨ code = 403 ∨ code = 400).
Proof.
  assert (respond_to_application 2 7 11 "approve" 60 hike_db
          = (Err 403, hike_db)) as Hanswer by (vm_compute; reflexivity).
  exists 403. split; [exact Hanswer|].
  by destruct (respond_guards 2 7 11 "approve" 60 hike_db _ _ Hanswer)
    as [_ Hcode].
Defined.


(** Alice deletes the hike; bob's application can no longer be answered. *)
Lemma destroyed_activity_is_unreachable_witness :
  ∃ db', destroy 1 7 60 hike_db = (Ok 204 (), db')
    ∧ respond_to_application 1 7 11 "approve" 70 db' = (Err 404, db').
Proof.
  assert (∃ db', destroy 1 7 60 hike_db = (Ok 204 (), db')) as (db' & Hgone).
  { vm_compute. eexists. reflexivity. }
  exists db'. split; [exact Hgone|].
  destruct (destroyed_activity_is_unreachable 1 7 60 hike_db db' Hgone)
    as (_ & _ & _ & Hanswer & _).
  apply Hanswer.
Defined.

(** Alice opens a conversation with carol. *)
Lemma created_conversation_members_witness :
  ∃ c db', @create_conversation Plain.plain 1 (ask_for 3) 20 chat_db
           = (Ok 201 c, db')
    ∧ 1 ∈ participants c
    ∧ conversations db' = conversations chat_db ++ [c].
Proof.
  assert (∃ c db', @create_conversation Plain.plain 1 (ask_for 3) 20 chat_db
                   = (Ok 201 c, db')) as (c & db' & Hmade).
  { vm_compute. eexists _, _. reflexivity. }
  exists c, db'. split; [exact Hmade|].
  by destruct (@created_conversation_members Plain.plain 1 (ask_for 3) 20
                 chat_db c db' Hmade) as (Hin & _ & _ & Hrows).
Defined.

(** Alice, who has blocked bob, asks for a conversation with him. *)
Lemma create_conversation_answers_witness :
  ∃ code, @create_conversation Plain.plain 1 (ask_for 2) 20 blocked_db
          = (Err code, blocked_db)
    ∧ (code = 400 ∨ code = 500).
Proof.
  assert (@create_conversation Plain.plain 1 (ask_for 2) 20 blocked_db
          = (Err 400, blocked_db)) as Hanswer by (vm_compute; reflexivity).
  exists 400. split; [exact Hanswer|].
  by destruct (@create_conversation_answers Plain.plain 1 (ask_for 2) 20
                 blocked_db _ _ Hanswer) as [_ Hcode].
Defined.

(** Alice opens the conversation in which bob has written to her. *)
Lemma detail_shows_messages_read_witness :
  ∃ c body d', retrieve 1 1 bob_wrote = (Ok 200 (c, body), d')
    ∧ Forall (λ m, sender m ≠ 1 → is_read m = true) body
    ∧ unread_count_for c 1 d' = 0%nat.
Proof.
  assert (∃ c body d', retrieve 1 1 bob_wrote = (Ok 200 (c, body), d'))
    as (c & body & d' & Hopened).
  { vm_compute. eexists _, _, _. reflexivity. }
  exists c, body, d'. split; [exact Hopened|].
  by destruct (detail_shows_messages_read 1 1 bob_wrote _ d' Hopened)
    as (_ & _ & _ & _ & _ & Hread & _ & Hcount & _).
Defined.

(** On a runtime whose regex engine rejects every pattern, the banned
    word listed after the pattern is not applied. *)
Lemma malformed_pattern_ends_banned_pass_witness :
  @filter_ugc_content Plain.plain (Some [open_bracket; gizlendi])
    (Some (str "gizlendi"))
  = @filter_ugc_content Plain.plain (Some []) (Some (str "gizlendi")).
Proof.
  apply (@malformed_pattern_ends_banned_pass Plain.plain [] [gizlendi]
           open_bracket).
  - reflexivity.
  - reflexivity.
  - intros s. reflexivity.
Defined.

End FurtherInstances.
